(** * invenio-qa-tools: requirement extraction and aggregation

    A shallow embedding of [invenio_qa_tools/api.py]:
    [build_package_requirements] (the requirement extractor) and
    [build_requirements_list] (the requirement aggregator), with the
    properties stated about them.

    Conventions of the embedding.
    - A Python exception is a value of [exn]; a computation that may raise
      has type [exn + A], [inl e] being "raises [e]".
    - A Python [str] is a [string]; the model covers ASCII text.
    - A dict whose insertion order is observed by the code ([popitem],
      [items]) is an association list in insertion order; a dict that is
      only looked up and updated by key is a [gmap].
    - [build_requirements_list] mutates the dicts of the list it is given
      ([popitem]); it is modelled by explicit state passing: the function
      returns the state of the caller's list next to its outcome. *)

From Stdlib Require Import Ascii.
From stdpp Require Import gmap strings list fin_maps sets.

Open Scope string_scope.
Open Scope list_scope.

(** * The program *)

(** ** Exceptions *)

(** The [ValueError]s of the two functions, told apart by where they are
    raised. *)
Inductive value_error :=
  | NoMetadata          (* raise ValueError('No package metadata provided') *)
  | JSONDecode          (* json.loads: JSONDecodeError, a ValueError *)
  | Unpack              (* tuple unpacking with the wrong number of values *)
  | MultipleSpecifiers. (* raise ValueError('Package defines multiple ...') *)

Inductive exn :=
  | TypeError
  | KeyError
  | ValueError (why : value_error).

#[global] Instance value_error_eq_dec : EqDecision value_error.
Proof. solve_decision. Defined.
#[global] Instance exn_eq_dec : EqDecision exn.
Proof. solve_decision. Defined.

#[global] Instance exn_ret : MRet (sum exn) := λ A x, inr x.
#[global] Instance exn_bind : MBind (sum exn) := λ A B f m,
  match m with
  | inl e => inl e
  | inr x => f x
  end.

(** [d[k]] on a dict that is a [gmap]: [KeyError] when the key is absent. *)
Definition getitem {V} (d : gmap string V) (k : string) : exn + V :=
  match d !! k with
  | Some v => inr v
  | None => inl KeyError
  end.

(** ** The aggregator: [build_requirements_list] *)

(** One requirement as the extractor emits it: a dict, expected to hold the
    single item [dep_name: ver]. *)
Abbreviation requirement := (list (string * string)).

(** A [PackageRequirements] dict [{package_name: [requirement, ...]}], in
    insertion order. *)
Abbreviation package_requirements := (list (string * list requirement)).

(** [dict.popitem()]: removes and returns the item inserted last; [None]
    stands for the [KeyError] of an empty dict. *)
Fixpoint popitem {K V} (d : list (K * V)) : option ((K * V) * list (K * V)) :=
  match d with
  | [] => None
  | [kv] => Some (kv, [])
  | kv :: d' =>
      match popitem d' with
      | Some (last, rest) => Some (last, kv :: rest)
      | None => None
      end
  end.

(** [(dep_name, ver), = dep.items()]: exactly one item, or [ValueError]. *)
Definition single_item (dep : requirement) : exn + (string * string) :=
  match dep with
  | [item] => inr item
  | _ => inl (ValueError Unpack)
  end.

Module Aggregator.

(** api.py, lines 183-197: record [ver] under [requirements_list[dep_name]
    [package_name]]. *)
Definition record_specifier (raise_on_confict : bool)
    (package_name dep_name ver : string)
    (requirements_list : gmap string (gmap string (list string)))
  : exn + gmap string (gmap string (list string)) :=
  match requirements_list !! dep_name with
  | None =>
      let templist := [] ++ [ver] in
      inr (<[dep_name := {[package_name := templist]}]> requirements_list)
  | Some entry =>
      match entry !! package_name with
      | None =>
          inr (<[dep_name := <[package_name := [] ++ [ver]]> entry]>
                 requirements_list)
      | Some specs =>
          if negb raise_on_confict
          then inr (<[dep_name := <[package_name := specs ++ [ver]]> entry]>
                      requirements_list)
          else inl (ValueError MultipleSpecifiers)
      end
  end.

(** api.py, lines 200-202: create the ['version_specifiers'] list of the
    entry when it has none. *)
Definition init_version_specifiers (dep_name ver : string)
    (requirements_list : gmap string (gmap string (list string)))
  : exn + gmap string (gmap string (list string)) :=
  entry ← getitem requirements_list dep_name;
  match entry !! "version_specifiers" with
  | None =>
      inr (<[dep_name := <["version_specifiers" := [] ++ [ver]]> entry]>
             requirements_list)
  | Some _ => inr requirements_list
  end.

(** api.py, lines 204-205: append [ver] to ['version_specifiers'] unless it
    is there already. *)
Definition add_version_specifier (dep_name ver : string)
    (requirements_list : gmap string (gmap string (list string)))
  : exn + gmap string (gmap string (list string)) :=
  entry ← getitem requirements_list dep_name;
  specs ← getitem entry "version_specifiers";
  if bool_decide (ver ∈ specs)
  then inr requirements_list
  else inr (<[dep_name := <["version_specifiers" := specs ++ [ver]]> entry]>
              requirements_list).

(** The body of the inner loop, api.py lines 181-205. *)
Definition add_requirement (raise_on_confict : bool) (package_name : string)
    (dep : requirement)
    (requirements_list : gmap string (gmap string (list string)))
  : exn + gmap string (gmap string (list string)) :=
  '(dep_name, ver) ← single_item dep;
  r1 ← record_specifier raise_on_confict package_name dep_name ver
         requirements_list;
  r2 ← init_version_specifiers dep_name ver r1;
  add_version_specifier dep_name ver r2.

(** [for dep in deplist: ...] *)
Fixpoint add_requirements (raise_on_confict : bool) (package_name : string)
    (deplist : list requirement)
    (requirements_list : gmap string (gmap string (list string)))
  : exn + gmap string (gmap string (list string)) :=
  match deplist with
  | [] => inr requirements_list
  | dep :: deplist' =>
      r ← add_requirement raise_on_confict package_name dep requirements_list;
      add_requirements raise_on_confict package_name deplist' r
  end.

(** [for package in package_list: ...], api.py lines 177-205.  The first
    component is the caller's list after the loop: every dict visited has
    lost the item [popitem] took, also when an exception ends the loop. *)
Fixpoint aggregate_loop (raise_on_confict : bool)
    (package_list : list package_requirements)
    (requirements_list : gmap string (gmap string (list string)))
  : list package_requirements
    * (exn + gmap string (gmap string (list string))) :=
  match package_list with
  | [] => ([], inr requirements_list)
  | package :: package_list' =>
      match popitem package with
      | None => (package :: package_list', inl KeyError)
      | Some ((package_name, deplist), package') =>
          match add_requirements raise_on_confict package_name deplist
                  requirements_list with
          | inl e => (package' :: package_list', inl e)
          | inr r =>
              let '(rest, out) :=
                aggregate_loop raise_on_confict package_list' r in
              (package' :: rest, out)
          end
      end
  end.

(** [build_requirements_list(package_list, raise_on_confict=False)]. *)
Definition build_requirements_list
    (package_list : list package_requirements) (raise_on_confict : bool)
  : list package_requirements
    * (exn + gmap string (gmap string (list string))) :=
  aggregate_loop raise_on_confict package_list ∅.

End Aggregator.

Import Aggregator.

(** ** The presentation layer's conflict flag *)

(** dependencies.py, lines 143-144:
    [conflict = len(od[package]['version_specifiers']) > 1]. *)
Definition conflict (entry : gmap string (list string)) : exn + bool :=
  specs ← getitem entry "version_specifiers";
  inr (bool_decide (1 < length specs)).

(** ** The extractor: metadata and runtime *)

(** One sub-group of a requirement group: [{"extra": ..., "requires":
    [...]}], both keys optional ([req.get]). *)
Record requirement_group := {
  extra : option string;
  requires : option (list string)
}.

(** The parsed PEP 426 document: the value of ['name'], when the key is
    there, and the requirement groups by key.  The model covers the
    documents of this shape: a group is a list of sub-groups and a
    requirement is a string. *)
Record metadata := {
  md_name : option string;
  md_groups : gmap string (list requirement_group)
}.

(** What the extractor takes from outside the repository: [json.loads]
    ([None] when it raises) and the order in which [list(s)] enumerates a
    set, about which nothing is known but that it enumerates the set.  A
    document that is valid JSON without being an object of the shape of
    [metadata] has no image under [json_loads]: the model does not cover
    it. *)
Class Runtime := {
  json_loads : string → option metadata;
  set_to_list : gset string → list string;
  set_to_list_perm : ∀ X, set_to_list X ≡ₚ elements X
}.

(** ** The extractor: [str.split()] *)

(** [str.isspace] on ASCII: tab, line feed, vertical tab, form feed,
    carriage return, the four separators 28-31 and the space. *)
Definition isspace (c : ascii) : bool :=
  let n := nat_of_ascii c in
  ((9 <=? n) && (n <=? 13) || (28 <=? n) && (n <=? 32))%nat.

(** [split_from word s]: the tokens of [s], [word] being the token read so
    far. *)
Fixpoint split_from (word s : string) : list string :=
  match s with
  | EmptyString =>
      match word with
      | EmptyString => []
      | _ => [word]
      end
  | String c s' =>
      if isspace c then
        match word with
        | EmptyString => split_from "" s'
        | _ => word :: split_from "" s'
        end
      else split_from (String.append word (String c "")) s'
  end.

(** [s.split()]: split on runs of whitespace, no empty token. *)
Definition split (s : string) : list string := split_from "" s.

(** ** The extractor: [canonicalize_name] *)

Definition is_separator (c : ascii) : bool :=
  bool_decide (c = "-"%char ∨ c = "_"%char ∨ c = "."%char).

Definition lower_char (c : ascii) : ascii :=
  let n := nat_of_ascii c in
  if ((65 <=? n) && (n <=? 90))%nat then ascii_of_nat (n + 32) else c.

Fixpoint lower (s : string) : string :=
  match s with
  | EmptyString => EmptyString
  | String c s' => String (lower_char c) (lower s')
  end.

(** Every run of [-], [_] and [.] becomes one [-]; [in_run] tells that the
    previous character belonged to a run. *)
Fixpoint normalize_separators (in_run : bool) (s : string) : string :=
  match s with
  | EmptyString => EmptyString
  | String c s' =>
      if is_separator c then
        if in_run then normalize_separators true s'
        else String "-" (normalize_separators true s')
      else String c (normalize_separators false s')
  end.

(** Modelled from the spec: [canonicalize_name] belongs to the [packaging]
    library, which is not part of the sources; the spec has it lowercase and
    separator-normalize the name "per standard package-name canonicalization
    rules", which are: replace every run of [-], [_], [.] by a single [-],
    then lowercase. *)
Definition canonicalize_name (name : string) : string :=
  lower (normalize_separators false name).

(** ** The extractor: [build_package_requirements] *)

Module Extractor.

(** The [for] loop of [_get_requirements], api.py lines 83-85; falling off
    the loop is falling off the function, which returns [None]. *)
Fixpoint first_all (requirements : list requirement_group)
  : option (list string) :=
  match requirements with
  | [] => None
  | req :: requirements' =>
      if decide (extra req = Some "all") then requires req
      else first_all requirements'
  end.

(** [_get_requirements(key, metadata)], api.py lines 79-91.  The value is
    the Python value returned: [None], or the iterable ([Some]), the empty
    [set()] being [Some []]. *)
Definition _get_requirements (key : string) (metadata : metadata)
  : option (list string) :=
  let requirements := default [] (md_groups metadata !! key) in
  if decide (1 < length requirements) then first_all requirements
  else if decide (0 < length requirements) then
    match requirements with
    | req :: _ => requires req
    | [] => None
    end
  else Some [].

(** One [if kwargs.get(key, True): ...] block, api.py lines 100-118:
    [set.union] of [None] is a [TypeError]. *)
Definition include (kwargs : gmap string bool) (key : string)
    (metadata : metadata) (requirements_list : gset string)
  : exn + gset string :=
  if default true (kwargs !! key) then
    match _get_requirements key metadata with
    | Some reqs => inr (requirements_list ∪ list_to_set reqs)
    | None => inl TypeError
    end
  else inr requirements_list.

(** [dep, ver = string.split()] and the two lines after it. *)
Definition to_requirement (string : string) : exn + requirement :=
  match split string with
  | [dep; ver] =>
      let dep := canonicalize_name dep in
      inr [(dep, ver)]
  | _ => inl (ValueError Unpack)
  end.

(** [for string in list(requirements_list): ...], api.py lines 125-130. *)
Fixpoint to_requirements (strings : list string) : exn + list requirement :=
  match strings with
  | [] => inr []
  | string :: strings' =>
      r ← to_requirement string;
      reqs ← to_requirements strings';
      inr (r :: reqs)
  end.

(** [build_package_requirements(package_metadata, **kwargs)]. *)
Definition build_package_requirements `{Runtime} (package_metadata : string)
    (kwargs : gmap string bool) : exn + package_requirements :=
  if decide (package_metadata = "") then inl (ValueError NoMetadata) else
  metadata ← from_option inr (inl (ValueError JSONDecode))
               (json_loads package_metadata);
  let requirements_list : gset string := ∅ in
  requirements_list ←
    include kwargs "run_requires" metadata requirements_list;
  requirements_list ←
    include kwargs "test_requires" metadata requirements_list;
  requirements_list ←
    include kwargs "meta_requires" metadata requirements_list;
  requirements_list ←
    include kwargs "build_requires" metadata requirements_list;
  requirements_list ←
    include kwargs "dev_requires" metadata requirements_list;
  package_name ← from_option inr (inl KeyError) (md_name metadata);
  reqs ← to_requirements (set_to_list requirements_list);
  inr [(package_name, reqs)].

End Extractor.

Import Extractor.

(** A runtime for examples: [json.loads] is [loads], and a set is
    enumerated as [elements] does. *)
Definition runtime_of (loads : string → option metadata) : Runtime :=
  {| json_loads := loads;
     set_to_list := elements;
     set_to_list_perm := λ X, reflexivity (elements X) |}.

(** The runtime in which every document parses to [md]. *)
Definition example_runtime (md : metadata) : Runtime :=
  runtime_of (λ _, Some md).

(** * Vocabulary of the statements *)

(** ** Mentions: the aggregator's input, flattened *)

(** A mention [(package_name, dep_name, ver)]: package [package_name] asks
    for [dep_name] with specifier [ver]. *)
Abbreviation mention := (string * string * string)%type.

Definition mention_of (package_name : string) (dep : requirement)
  : list mention :=
  match dep with
  | [(dep_name, ver)] => [(package_name, dep_name, ver)]
  | _ => []
  end.

(** The mentions the loop meets in a package: those of the item that
    [popitem] hands out. *)
Definition package_mentions (p : package_requirements) : list mention :=
  match popitem p with
  | Some ((package_name, deplist), _) =>
      deplist ≫= mention_of package_name
  | None => []
  end.

Definition mentions (package_list : list package_requirements) : list mention :=
  package_list ≫= package_mentions.

(** A requirement dict holds exactly one item. *)
Definition single (dep : requirement) : Prop :=
  ∃ dep_name ver, dep = [(dep_name, ver)].

(** A dict the loop can process: it is not empty and the requirements of
    the item inserted last hold one item each. *)
Definition processable (p : package_requirements) : Prop :=
  ∃ package_name deplist p',
    popitem p = Some ((package_name, deplist), p') ∧ Forall single deplist.

#[global] Instance single_dec dep : Decision (single dep).
Proof.
  destruct dep as [|[d v] [|? ?]].
  - right. intros (? & ? & ?). discriminate.
  - left. by exists d, v.
  - right. intros (? & ? & ?). discriminate.
Defined.

#[global] Instance processable_dec p : Decision (processable p).
Proof.
  destruct (popitem p) as [[[n dl] p']|] eqn:E.
  - destruct (decide (Forall single dl)) as [H|H].
    + left. by exists n, dl, p'.
    + right. intros (n' & dl' & p'' & E' & H'). congruence.
  - right. intros (n' & dl' & p'' & E' & H'). congruence.
Defined.

(** The state [popitem] leaves a dict in. *)
Definition after_popitem (p : package_requirements) : package_requirements :=
  from_option snd [] (popitem p).

(** ** The loop, one mention at a time *)

(** What the loop body does with one mention. *)
Definition step (raise_on_confict : bool)
    (requirements_list : gmap string (gmap string (list string)))
    (m : mention) : exn + gmap string (gmap string (list string)) :=
  let '(package_name, dep_name, ver) := m in
  r1 ← record_specifier raise_on_confict package_name dep_name ver
         requirements_list;
  r2 ← init_version_specifiers dep_name ver r1;
  add_version_specifier dep_name ver r2.

Arguments step : simpl never.

Fixpoint run (raise_on_confict : bool) (ms : list mention)
    (requirements_list : gmap string (gmap string (list string)))
  : exn + gmap string (gmap string (list string)) :=
  match ms with
  | [] => inr requirements_list
  | m :: ms' =>
      r ← step raise_on_confict requirements_list m;
      run raise_on_confict ms' r
  end.

(** The entry of a dependency after one more mention of it, as one
    expression. *)
Definition upd (package_name ver : string) (entry : gmap string (list string))
  : gmap string (list string) :=
  let e1 := <[package_name := default [] (entry !! package_name) ++ [ver]]> entry in
  match e1 !! "version_specifiers" with
  | None => <["version_specifiers" := [ver]]> e1
  | Some specs =>
      if bool_decide (ver ∈ specs) then e1
      else <["version_specifiers" := specs ++ [ver]]> e1
  end.

Definition step_entry (dep_name : string)
    (o : option (gmap string (list string))) (m : mention)
  : option (gmap string (list string)) :=
  let '(package_name, d, ver) := m in
  if decide (d = dep_name) then Some (upd package_name ver (default ∅ o))
  else o.

Definition entry_of (dep_name : string) (ms : list mention)
  : option (gmap string (list string)) :=
  foldl (step_entry dep_name) None ms.

(** ** What the mentions say about an entry *)

(** The specifiers a package gives for a dependency, in order. *)
Definition specs_of (package_name dep_name : string) (ms : list mention)
  : list string :=
  omap (λ m : mention,
          let '(n, d, v) := m in
          if decide (n = package_name ∧ d = dep_name) then Some v else None) ms.

(** All the specifiers given for a dependency, in order. *)
Definition all_specs (dep_name : string) (ms : list mention) : list string :=
  omap (λ m : mention,
          let '(n, d, v) := m in
          if decide (d = dep_name) then Some v else None) ms.

(** The packages that mention a dependency, in order. *)
Definition mentioning (dep_name : string) (ms : list mention) : list string :=
  omap (λ m : mention,
          let '(n, d, v) := m in
          if decide (d = dep_name) then Some n else None) ms.

(** First occurrences, in order: a list without its repetitions. *)
Definition distinct (l : list string) : list string :=
  foldl (λ acc v, if bool_decide (v ∈ acc) then acc else acc ++ [v]) [] l.

Definition nonempty (l : list string) : option (list string) :=
  match l with
  | [] => None
  | _ => Some l
  end.

(** The distinct specifiers recorded for a dependency, as a set. *)
Definition version_specifier_set
    (requirements_list : gmap string (gmap string (list string)))
    (dep_name : string) : gset string :=
  list_to_set
    (default [] (default ∅ (requirements_list !! dep_name)
                   !! "version_specifiers")).

(** The ['version_specifiers'] list of an entry, [[]] when there is none. *)
Definition vs_list (o : option (gmap string (list string))) : list string :=
  default [] (default ∅ o !! "version_specifiers").

Definition no_reserved_name (ms : list mention) : Prop :=
  ∀ n d v, (n, d, v) ∈ ms → n ≠ "version_specifiers".

(** What an entry holds, in terms of the mentions of its dependency. *)
Definition entry_spec (dn : string) (ms : list mention)
    (o : option (gmap string (list string))) : Prop :=
  match o with
  | None => all_specs dn ms = []
  | Some e =>
      all_specs dn ms ≠ [] ∧
      (∃ l, e !! "version_specifiers" = Some l ∧
            ∀ v, v ∈ l ↔ v ∈ all_specs dn ms) ∧
      (∀ k, k ≠ "version_specifiers" →
            e !! k = nonempty (specs_of k dn ms))
  end.

(** Key [n] is present in the entry of [dn] once the mentions [ms] are
    recorded: package [n] has mentioned [dn], or [n] is the reserved key and
    [dn] has an entry. *)
Definition recorded (ms : list mention) (n dn : string) : Prop :=
  (∃ v', (n, dn, v') ∈ ms) ∨
  (n = "version_specifiers" ∧ ∃ n' v', (n', dn, v') ∈ ms).

(** Some mention meets a key that is recorded already. *)
Definition meets_recorded_key (ms : list mention) : Prop :=
  ∃ ms1 n dn v ms2,
    ms = ms1 ++ (n, dn, v) :: ms2 ∧ recorded ms1 n dn.

(** A well-formed requirement whose dependency is not [name]. *)
Definition other_than (name : string) (dep : requirement) : Prop :=
  ∃ dep_name ver, dep = [(dep_name, ver)] ∧ dep_name ≠ name.

(** ** The selection of the requirement strings *)

Definition group_keys : list string :=
  ["run_requires"; "test_requires"; "meta_requires"; "build_requires";
   "dev_requires"].

(** [kwargs.get(key, True)] *)
Definition enabled (kwargs : gmap string bool) (key : string) : bool :=
  default true (kwargs !! key).

(** The [if] blocks of the keys [keys], one after the other. *)
Fixpoint include_all (kwargs : gmap string bool) (metadata : metadata)
    (keys : list string) (requirements_list : gset string)
  : exn + gset string :=
  match keys with
  | [] => inr requirements_list
  | key :: keys' =>
      s ← include kwargs key metadata requirements_list;
      include_all kwargs metadata keys' s
  end.

(** The strings a key contributes. *)
Definition selection (kwargs : gmap string bool) (metadata : metadata)
    (key : string) : gset string :=
  if enabled kwargs key
  then list_to_set (default [] (_get_requirements key metadata))
  else ∅.

(** The strings of all enabled groups. *)
Definition selected_strings (kwargs : gmap string bool) (metadata : metadata)
  : gset string :=
  ⋃ (selection kwargs metadata <$> group_keys).

(** Every enabled key selects an iterable. *)
Definition selectable (kwargs : gmap string bool) (metadata : metadata)
    (keys : list string) : Prop :=
  ∀ key, key ∈ keys → enabled kwargs key = true →
         is_Some (_get_requirements key metadata).

(** ** Spellings of a name *)

(** Two spellings of one name: letters may differ in case, a separator may
    be any of [-], [_], [.], and a separator may be repeated. *)
Inductive same_name : string → string → Prop :=
  | same_nil : same_name "" ""
  | same_letter c1 c2 s1 s2 :
      is_separator c1 = false → is_separator c2 = false →
      lower_char c1 = lower_char c2 →
      same_name s1 s2 → same_name (String c1 s1) (String c2 s2)
  | same_separator c1 c2 s1 s2 :
      is_separator c1 = true → is_separator c2 = true →
      same_name s1 s2 → same_name (String c1 s1) (String c2 s2)
  | same_repeat_l c c' s1 s2 :
      is_separator c = true → is_separator c' = true →
      same_name (String c s1) s2 → same_name (String c' (String c s1)) s2
  | same_repeat_r c c' s1 s2 :
      is_separator c = true → is_separator c' = true →
      same_name s1 (String c s2) → same_name s1 (String c' (String c s2)).

(** ** Inputs of the examples *)


(** A package called [version_specifiers], after and before package [A]. *)
Definition reserved_last : list package_requirements :=
  [ [("A", [ [("foo", "==1.0")] ])];
    [("version_specifiers", [ [("foo", "==1.0")] ])] ].

Definition reserved_first : list package_requirements :=
  [ [("version_specifiers", [ [("foo", "==1.0")] ])];
    [("A", [ [("foo", "==1.0")] ])] ].

Definition scenario_packages : list package_requirements :=
  [ [("A", [ [("foo", ">=1.0")] ])]; [("B", [ [("foo", ">=2.0")] ])] ].

Definition scenario_result : gmap string (gmap string (list string)) :=
  {[ "foo" := {[ "A" := [">=1.0"]; "B" := [">=2.0"];
                 "version_specifiers" := [">=1.0"; ">=2.0"] ]} ]}.

(** Two spellings of the same pair in one group. *)
Definition spelled_twice : metadata :=
  {| md_name := Some "pkg";
     md_groups :=
       {[ "run_requires" :=
            [ {| extra := None;
                 requires := Some ["Foo >=1.0"; "foo >=1.0"] |} ] ]} |}.

(** A document with two groups; the second has two sub-groups, one of them
    tagged [all]. *)
Definition two_groups : metadata :=
  {| md_name := Some "invenio";
     md_groups :=
       {[ "run_requires" :=
            [ {| extra := None;
                 requires := Some ["Sphinx (>=1.5.1)"; "Sphinx (>1.5)"] |} ];
          "test_requires" :=
            [ {| extra := Some "docs";
                 requires := Some ["Sphinx (>=1.5.1)"] |};
              {| extra := Some "all";
                 requires := Some ["isort (>=4.3.3)"; "Sphinx (>1.5)"] |} ] ]}
  |}.

Definition docs_group : requirement_group :=
  {| extra := Some "docs"; requires := Some ["Sphinx (>=1.5.1)"] |}.

Definition all_group : requirement_group :=
  {| extra := Some "all";
     requires := Some ["isort (>=4.3.3)"; "Sphinx (>1.5)"] |}.

(** [two_groups] with the [all] sub-group alone under ['test_requires']. *)
Definition two_groups_all_only : metadata :=
  {| md_name := md_name two_groups;
     md_groups := <["test_requires" := [all_group]]> (md_groups two_groups) |}.

Definition two_documents (doc : string) : option metadata :=
  if decide (doc = "two_groups.json") then Some two_groups
  else if decide (doc = "all_only.json") then Some two_groups_all_only
  else None.

(** The scenario of the specification: a requirement of a single token. *)
Definition no_specifier : metadata :=
  {| md_name := Some "pkg";
     md_groups :=
       {[ "run_requires" :=
            [ {| extra := None;
                 requires := Some ["malformed-no-specifier"] |} ] ]} |}.

(** Two sub-groups, none tagged [all]. *)
Definition no_all : metadata :=
  {| md_name := Some "pkg";
     md_groups :=
       {[ "run_requires" :=
            [ {| extra := Some "docs"; requires := Some ["Sphinx (>=1.5.1)"] |};
              {| extra := Some "tests"; requires := Some ["isort (>=4.3.3)"] |}
            ] ]} |}.

(** ** The dependencies mentioned *)


(** ** Tokens *)

(** Some character of the string is whitespace. *)
Fixpoint has_space (s : string) : bool :=
  match s with
  | EmptyString => false
  | String c s' => isspace c || has_space s'
  end.

(** A requirement as the extractor emits it: one item, whose name is
    canonical and not empty and whose specifier is a token. *)
Definition emitted (r : requirement) : Prop :=
  ∃ d v, r = [(d, v)] ∧ canonicalize_name d = d ∧ d ≠ "" ∧
         v ≠ "" ∧ has_space v = false.

(** ** The command: from the documents to the aggregated result *)

(** dependencies.py, lines 111-124, for the documents [metadata.json] of the
    packages, read already: each is given to [build_package_requirements]
    with no keyword argument and the results are collected in order; the
    first exception ends the loop. *)
Fixpoint requirements_of_packages `{Runtime} (documents : list string)
  : exn + list package_requirements :=
  match documents with
  | [] => inr []
  | metadata :: documents' =>
      reqs ← build_package_requirements metadata ∅;
      rest ← requirements_of_packages documents';
      inr (reqs :: rest)
  end.

(** dependencies.py, lines 126-128: the collected list goes to
    [build_requirements_list]; the list itself is not used afterwards. *)
Definition packages_by_requirement `{Runtime} (documents : list string)
    (raise_on_conflict : bool)
  : exn + gmap string (gmap string (list string)) :=
  rs ← requirements_of_packages documents;
  (build_requirements_list rs raise_on_conflict).2.

(** The keys of the dicts of a list, in order. *)
Definition package_names (pl : list package_requirements) : list string :=
  pl ≫= λ p, p.*1.

(** The dependency names of a list of requirements, in order. *)
Definition requirement_names (reqs : list requirement) : list string :=
  reqs ≫= λ r, r.*1.

(** The (package, dependency) pairs of the mentions, in order. *)
Definition mentioned_pairs (ms : list mention) : list (string * string) :=
  (λ m : mention, m.1) <$> ms.

(** A dict as the extractor returns it: one key, requirements of one item
    each. *)
Definition extracted (p : package_requirements) : Prop :=
  ∃ n reqs, p = [(n, reqs)] ∧ Forall single reqs.

(** ** dependencies.py: streams and the working directory *)

(** The object bound to [sys.stdout] or [sys.stderr]: the file opened on
    [os.devnull], or another stream. *)
Inductive stream :=
  | Devnull
  | Stream (name : string).

(** The part of the process that the functions of dependencies.py touch. *)
Record process := {
  sys_stdout : stream;
  sys_stderr : stream;
  cwd : string
}.

Definition set_stdout (f : stream) (ps : process) : process :=
  {| sys_stdout := f; sys_stderr := sys_stderr ps; cwd := cwd ps |}.

Definition set_stderr (f : stream) (ps : process) : process :=
  {| sys_stdout := sys_stdout ps; sys_stderr := f; cwd := cwd ps |}.

Definition set_cwd (path : string) (ps : process) : process :=
  {| sys_stdout := sys_stdout ps; sys_stderr := sys_stderr ps; cwd := path |}.

(** Statements run in a process: the process they leave, and the value they
    return ([inr]) or the exception they raise ([inl]). *)
Abbreviation block E A := (process → process * (E + A)).

(** [with suppress_stdout(suppress): body], dependencies.py lines 43-55.
    The stream is redirected when [suppress] is false; [finally] puts the
    old stream back whether the body returns or raises.  Opening
    [os.devnull] is taken to succeed. *)
Definition suppress_stdout {E A} (suppress : bool) (body : block E A)
  : block E A :=
  λ ps,
    if negb suppress then
      let old_stdout := sys_stdout ps in
      let '(ps', r) := body (set_stdout Devnull ps) in
      (set_stdout old_stdout ps', r)
    else body ps.

(** [with suppress_stderr(suppress): body], dependencies.py lines 58-70. *)
Definition suppress_stderr {E A} (suppress : bool) (body : block E A)
  : block E A :=
  λ ps,
    if suppress then
      let old_stderr := sys_stderr ps in
      let '(ps', r) := body (set_stderr Devnull ps) in
      (set_stderr old_stderr ps', r)
    else body ps.

Section Dist_info.

(** What [generate_dist_info] takes from outside the repository: the
    exceptions, with the [OSError] of [os.chdir]; the directories that
    exist; [setuptools.build_meta.prepare_metadata_for_build_wheel]; and
    [os.path.dirname(__file__)].  Paths are absolute. *)
Context {E : Type} (OSError : E) (isdir : string → bool).
Context (prepare_metadata_for_build_wheel : string → block E string).
Context (module_dir : string).

(** [os.chdir(path)] *)
Definition chdir (path : string) : block E unit :=
  λ ps, if isdir path then (set_cwd path ps, inr tt) else (ps, inl OSError).

(** [generate_dist_info(repopath, suppress_output=True,
    suppress_errors=False)], dependencies.py lines 73-85. *)
Definition generate_dist_info (repopath : string)
    (suppress_output suppress_errors : bool) : block E string :=
  λ ps,
    let '(ps1, r1) := chdir repopath ps in
    match r1 with
    | inl e => (ps1, inl e)
    | inr _ =>
        let '(ps2, r2) :=
          suppress_stdout suppress_output
            (suppress_stderr suppress_errors
               (prepare_metadata_for_build_wheel repopath)) ps1 in
        match r2 with
        | inl e => (ps2, inl e)
        | inr dist_info_dir =>
            let '(ps3, r3) := chdir module_dir ps2 in
            match r3 with
            | inl e => (ps3, inl e)
            | inr _ => (ps3, inr dist_info_dir)
            end
        end
    end.

End Dist_info.

(** The process in which the build of the metadata runs. *)
Definition build_process (repopath : string)
    (suppress_output suppress_errors : bool) (ps : process) : process :=
  {| sys_stdout := if suppress_output then sys_stdout ps else Devnull;
     sys_stderr := if suppress_errors then Devnull else sys_stderr ps;
     cwd := repopath |}.

(** ** Inputs of the further examples *)

(** A list with an empty dict in the middle. *)
Definition interrupted_packages : list package_requirements :=
  [ [("A", [ [("foo", ">=1.0")] ])]; [];
    [("B", [ [("foo", ">=2.0")] ])] ].

(** A document without requirement groups. *)
Definition no_groups : metadata :=
  {| md_name := Some "pkg"; md_groups := ∅ |}.

(** What [two_groups] extracts to under [runtime_of]. *)
Definition two_groups_requirements : package_requirements :=
  [("invenio", [ [("sphinx", "(>=1.5.1)")]; [("sphinx", "(>1.5)")];
                 [("isort", "(>=4.3.3)")] ])].

(** [two_groups] with, under ['test_requires'], two sub-groups none of which
    is tagged [all]. *)
Definition two_groups_unselectable : metadata :=
  {| md_name := md_name two_groups;
     md_groups :=
       <["test_requires" := [docs_group; docs_group]]> (md_groups two_groups)
  |}.

Definition disabled_documents (doc : string) : option metadata :=
  if decide (doc = "two_groups.json") then Some two_groups
  else if decide (doc = "unselectable.json") then Some two_groups_unselectable
  else None.

(** Two sub-groups tagged [all] after one that is not. *)
Definition two_all : metadata :=
  {| md_name := Some "pkg";
     md_groups :=
       {[ "dev_requires" :=
            [ docs_group; all_group;
              {| extra := Some "all"; requires := Some ["pytest (>=3.0)"] |} ]
       ]} |}.

(** A build that returns the name of the directory it wrote and touches
    nothing, in a file system with the two directories [/repo] and
    [/module]. *)
Definition example_isdir (path : string) : bool :=
  bool_decide (path = "/repo" ∨ path = "/module").

Definition example_prepare (repopath : string) : block string string :=
  λ ps, (ps, inr "pkg.dist-info").

(** * Lemmas and theorems *)

(** ** Lemmas on the loop *)

Lemma popitem_snoc {K V} (d : list (K * V)) kv :
  popitem (d ++ [kv]) = Some (kv, d).
Proof.
  induction d as [|x d IH]; [done|].
  simpl. rewrite IH. by destruct d.
Qed.

Lemma popitem_Some {K V} (d : list (K * V)) kv d' :
  popitem d = Some (kv, d') ↔ d = d' ++ [kv].
Proof.
  split; [|intros ->; apply popitem_snoc].
  induction d as [|x d _] using rev_ind; [done|].
  rewrite popitem_snoc. by intros [= -> ->].
Qed.

Lemma popitem_None {K V} (d : list (K * V)) :
  popitem d = None ↔ d = [].
Proof.
  split; [|by intros ->].
  induction d as [|x d _] using rev_ind; [done|]. by rewrite popitem_snoc.
Qed.

Lemma add_requirement_step b n dn v R :
  add_requirement b n [(dn, v)] R = step b R (n, dn, v).
Proof. done. Qed.

Lemma add_requirements_run b n dl R :
  Forall single dl →
  add_requirements b n dl R = run b (dl ≫= mention_of n) R.
Proof.
  intros H. revert R. induction H as [|d dl (dn & v & ->) _ IH]; intros R; [done|].
  simpl. rewrite add_requirement_step.
  destruct (step b R (n, dn, v)) as [e|R1]; simpl; [done|]. apply IH.
Qed.

Lemma add_requirements_ok b n dl R R' :
  add_requirements b n dl R = inr R' → Forall single dl.
Proof.
  revert R. induction dl as [|d dl IH]; intros R; [by constructor|].
  simpl. destruct (add_requirement b n d R) as [e|R1] eqn:E; [done|].
  simpl. intros H. constructor; [|by eapply IH].
  destruct d as [|[dn v] [|? ?]]; try done. by exists dn, v.
Qed.

Lemma run_app b ms1 ms2 R :
  run b (ms1 ++ ms2) R = run b ms1 R ≫= run b ms2.
Proof.
  revert R. induction ms1 as [|m ms1 IH]; intros R; [done|].
  simpl. destruct (step b R m); [done|]. apply IH.
Qed.

Lemma aggregate_loop_run b pl R :
  Forall processable pl →
  (aggregate_loop b pl R).2 = run b (mentions pl) R.
Proof.
  intros H. revert R.
  induction H as [|p pl (n & dl & p' & Hp & Hdl) _ IH]; intros R; [done|].
  unfold mentions. simpl. rewrite run_app. unfold package_mentions.
  rewrite Hp, <- add_requirements_run by done.
  destruct (add_requirements b n dl R) as [e|R1]; [done|].
  simpl. specialize (IH R1). by destruct (aggregate_loop b pl R1).
Qed.

Lemma aggregate_loop_ok b pl R st R' :
  aggregate_loop b pl R = (st, inr R') →
  Forall processable pl ∧ st = (λ p, from_option snd [] (popitem p)) <$> pl.
Proof.
  revert R st. induction pl as [|p pl IH]; intros R st.
  { simpl. by intros [= <- _]. }
  simpl. destruct (popitem p) as [[[n dl] p']|] eqn:Hp; [|done].
  destruct (add_requirements b n dl R) as [e|R1] eqn:Hdl; [done|].
  destruct (aggregate_loop b pl R1) as [rest out] eqn:Hl.
  intros [= <- ->]. destruct (IH _ _ Hl) as [Hwf ->]. split; [|done].
  constructor; [|done]. exists n, dl, p'. split; [done|].
  by eapply add_requirements_ok.
Qed.

(** *** One mention, in closed form *)

Lemma record_specifier_false R n dn v :
  record_specifier false n dn v R =
  inr (<[dn := <[n := default [] (default ∅ (R !! dn) !! n) ++ [v]]>
                 (default ∅ (R !! dn))]> R).
Proof.
  unfold record_specifier. destruct (R !! dn) as [e|]; simpl.
  - by destruct (e !! n).
  - by rewrite lookup_empty, insert_empty.
Qed.

Lemma record_specifier_true R n dn v :
  record_specifier true n dn v R =
  if bool_decide (is_Some (default ∅ (R !! dn) !! n))
  then inl (ValueError MultipleSpecifiers)
  else record_specifier false n dn v R.
Proof.
  unfold record_specifier. destruct (R !! dn) as [e|]; simpl.
  - by destruct (e !! n).
  - rewrite bool_decide_eq_false_2; [done|].
    rewrite lookup_empty. by intros [? ?].
Qed.

Lemma init_version_specifiers_insert R dn v e :
  init_version_specifiers dn v (<[dn := e]> R) =
  inr (<[dn := match e !! "version_specifiers" with
               | None => <["version_specifiers" := [v]]> e
               | Some _ => e
               end]> R).
Proof.
  unfold init_version_specifiers, getitem. rewrite lookup_insert_eq. simpl.
  destruct (e !! "version_specifiers"); [done|]. by rewrite insert_insert_eq.
Qed.

Lemma add_version_specifier_insert R dn v e specs :
  e !! "version_specifiers" = Some specs →
  add_version_specifier dn v (<[dn := e]> R) =
  inr (<[dn := if bool_decide (v ∈ specs) then e
               else <["version_specifiers" := specs ++ [v]]> e]> R).
Proof.
  intros H. unfold add_version_specifier, getitem.
  rewrite lookup_insert_eq. simpl. rewrite H. simpl.
  destruct (bool_decide (v ∈ specs)); [done|]. by rewrite insert_insert_eq.
Qed.

Lemma step_false R n dn v :
  step false R (n, dn, v) = inr (<[dn := upd n v (default ∅ (R !! dn))]> R).
Proof.
  unfold step. rewrite record_specifier_false. simpl.
  rewrite init_version_specifiers_insert. simpl. unfold upd.
  set (e1 := <[n:=_]> _).
  destruct (e1 !! "version_specifiers") as [specs|] eqn:E.
  - by rewrite (add_version_specifier_insert _ _ _ _ specs).
  - rewrite (add_version_specifier_insert _ _ _ _ [v]).
    + rewrite bool_decide_eq_true_2; [done|]. set_solver.
    + apply lookup_insert_eq.
Qed.

Lemma step_true R n dn v :
  step true R (n, dn, v) =
  if bool_decide (is_Some (default ∅ (R !! dn) !! n))
  then inl (ValueError MultipleSpecifiers)
  else step false R (n, dn, v).
Proof.
  unfold step. rewrite record_specifier_true. by case_bool_decide.
Qed.

Lemma run_false_lookup ms R :
  ∃ R', run false ms R = inr R' ∧
        ∀ dn, R' !! dn = foldl (step_entry dn) (R !! dn) ms.
Proof.
  revert R. induction ms as [|[[n d] v] ms IH]; intros R; [by exists R|].
  simpl. rewrite step_false. simpl.
  destruct (IH (<[d := upd n v (default ∅ (R !! d))]> R)) as (R' & -> & HR').
  exists R'. split; [done|]. intros dn. rewrite HR'. f_equal.
  rewrite lookup_insert. by destruct (decide (d = dn)) as [->|].
Qed.

Lemma run_true_false ms R R' :
  run true ms R = inr R' → run false ms R = inr R'.
Proof.
  revert R. induction ms as [|[[n d] v] ms IH]; intros R; [done|].
  simpl. rewrite step_true. case_bool_decide; [done|].
  destruct (step false R (n, d, v)); [done|]. apply IH.
Qed.

(** *** The entry of a dependency, from the mentions *)

Lemma default_nonempty l : default [] (nonempty l) = l.
Proof. by destruct l. Qed.

Lemma nonempty_snoc l v : nonempty (l ++ [v]) = Some (l ++ [v]).
Proof. by destruct l. Qed.

Lemma entry_of_snoc dn ms m :
  entry_of dn (ms ++ [m]) = step_entry dn (entry_of dn ms) m.
Proof. unfold entry_of. by rewrite foldl_app. Qed.

Lemma all_specs_snoc dn ms n d v :
  all_specs dn (ms ++ [(n, d, v)]) =
  all_specs dn ms ++ (if decide (d = dn) then [v] else []).
Proof.
  unfold all_specs. rewrite omap_app. simpl. by destruct (decide (d = dn)).
Qed.

Lemma specs_of_snoc k dn ms n d v :
  specs_of k dn (ms ++ [(n, d, v)]) =
  specs_of k dn ms ++ (if decide (n = k ∧ d = dn) then [v] else []).
Proof.
  unfold specs_of. rewrite omap_app. simpl.
  by destruct (decide (n = k ∧ d = dn)).
Qed.

Lemma elem_of_all_specs dn ms v :
  v ∈ all_specs dn ms ↔ ∃ n, (n, dn, v) ∈ ms.
Proof.
  unfold all_specs. rewrite list_elem_of_omap. split.
  - intros ([[n d] v'] & Hin & H). destruct (decide (d = dn)) as [->|]; [|done].
    injection H as ->. by exists n.
  - intros (n & Hin). exists (n, dn, v). split; [done|].
    by rewrite decide_True.
Qed.

Lemma elem_of_specs_of k dn ms v :
  v ∈ specs_of k dn ms ↔ (k, dn, v) ∈ ms.
Proof.
  unfold specs_of. rewrite list_elem_of_omap. split.
  - intros ([[n d] v'] & Hin & H).
    destruct (decide (n = k ∧ d = dn)) as [[-> ->]|]; [|done].
    by injection H as ->.
  - intros Hin. exists (k, dn, v). split; [done|]. by rewrite decide_True.
Qed.

Lemma specs_of_nil k dn ms : all_specs dn ms = [] → specs_of k dn ms = [].
Proof.
  intros H. destruct (specs_of k dn ms) as [|v l] eqn:E; [done|].
  assert (v ∈ all_specs dn ms) as Hv; [|rewrite H in Hv; by inversion Hv].
  apply elem_of_all_specs. exists k. apply elem_of_specs_of.
  rewrite E. by left.
Qed.

Lemma entry_spec_default dn ms o :
  entry_spec dn ms o →
  ∀ k, k ≠ "version_specifiers" →
       default [] (default ∅ o !! k) = specs_of k dn ms.
Proof.
  destruct o as [e|]; simpl.
  - intros (_ & _ & H) k Hk. by rewrite H, default_nonempty.
  - intros H k _. by rewrite lookup_empty, specs_of_nil.
Qed.

Lemma entry_spec_vs dn ms o :
  entry_spec dn ms o →
  ∀ v, v ∈ default [] (default ∅ o !! "version_specifiers") ↔
       v ∈ all_specs dn ms.
Proof.
  destruct o as [e|]; simpl.
  - intros (_ & (l & -> & H) & _). done.
  - intros -> v. by rewrite lookup_empty.
Qed.

Lemma upd_lookup_vs n v e :
  upd n v e !! "version_specifiers" =
  Some (let l := default [] (e !! "version_specifiers") in
        if decide (n = "version_specifiers") then l ++ [v]
        else if bool_decide (v ∈ l) then l else l ++ [v]).
Proof.
  unfold upd. destruct (decide (n = "version_specifiers")) as [->|Hn].
  - rewrite lookup_insert_eq.
    rewrite bool_decide_eq_true_2 by set_solver. by rewrite lookup_insert_eq.
  - rewrite lookup_insert_ne by done.
    destruct (e !! "version_specifiers") as [l|] eqn:E; simpl.
    + case_bool_decide.
      * by rewrite lookup_insert_ne.
      * by rewrite lookup_insert_eq.
    + by rewrite lookup_insert_eq.
Qed.

Lemma upd_lookup_ne n v e k :
  k ≠ "version_specifiers" →
  upd n v e !! k =
  if decide (n = k) then Some (default [] (e !! n) ++ [v]) else e !! k.
Proof.
  intros Hk. unfold upd.
  set (e1 := <[n := default [] (e !! n) ++ [v]]> e).
  assert (e1 !! k = if decide (n = k) then Some (default [] (e !! n) ++ [v])
                    else e !! k) as H1.
  { unfold e1. rewrite lookup_insert. by destruct (decide (n = k)). }
  destruct (e1 !! "version_specifiers") as [l|]; [case_bool_decide|];
    by rewrite ?lookup_insert_ne.
Qed.

Lemma entry_spec_snoc dn ms o n d v :
  entry_spec dn ms o →
  entry_spec dn (ms ++ [(n, d, v)]) (step_entry dn o (n, d, v)).
Proof.
  intros H. unfold step_entry. destruct (decide (d = dn)) as [->|Hd].
  - pose proof (entry_spec_default _ _ _ H) as Hdef.
    pose proof (entry_spec_vs _ _ _ H) as Hvs.
    simpl. rewrite all_specs_snoc, decide_True by done. split; [|split].
    + by destruct (all_specs dn ms).
    + eexists. split; [apply upd_lookup_vs|]. simpl. intros w.
      rewrite elem_of_app, <- Hvs, list_elem_of_singleton.
      destruct (decide (n = "version_specifiers"));
        [|case_bool_decide]; rewrite ?elem_of_app, ?list_elem_of_singleton;
        naive_solver.
    + intros k Hk. rewrite upd_lookup_ne, specs_of_snoc by done.
      destruct (decide (n = k)) as [->|Hn].
      * rewrite decide_True, nonempty_snoc by done. by rewrite Hdef.
      * rewrite decide_False, app_nil_r by naive_solver.
        destruct o as [e|]; simpl.
        -- destruct H as (_ & _ & H). by apply H.
        -- simpl in H. by rewrite lookup_empty, specs_of_nil.
  - destruct o as [e|]; simpl in *.
    + rewrite all_specs_snoc, decide_False, app_nil_r by done.
      destruct H as (? & ? & H). split; [done|]. split; [done|].
      intros k Hk. rewrite specs_of_snoc, decide_False, app_nil_r
        by naive_solver. by apply H.
    + by rewrite all_specs_snoc, decide_False, app_nil_r.
Qed.

Lemma entry_of_spec dn ms : entry_spec dn ms (entry_of dn ms).
Proof.
  induction ms as [|[[n d] v] ms IH] using rev_ind; [done|].
  rewrite entry_of_snoc. by apply entry_spec_snoc.
Qed.

(** *** [distinct] *)

Lemma distinct_snoc l v :
  distinct (l ++ [v]) =
  if bool_decide (v ∈ distinct l) then distinct l else distinct l ++ [v].
Proof. unfold distinct. by rewrite foldl_app. Qed.

Lemma elem_of_distinct l v : v ∈ distinct l ↔ v ∈ l.
Proof.
  revert v. induction l as [|w l IH] using rev_ind; intros v; [done|].
  rewrite distinct_snoc. case_bool_decide as Hw.
  - rewrite elem_of_app, list_elem_of_singleton, IH. rewrite IH in Hw.
    split; [by left|]. by intros [?| ->].
  - by rewrite !elem_of_app, IH.
Qed.

Lemma NoDup_distinct l : NoDup (distinct l).
Proof.
  induction l as [|w l IH] using rev_ind; [constructor|].
  rewrite distinct_snoc. case_bool_decide as Hw; [done|].
  apply NoDup_app. split; [done|]. split; [|apply NoDup_singleton].
  intros x Hx ->%list_elem_of_singleton. done.
Qed.

Lemma vs_list_distinct dn ms :
  no_reserved_name ms →
  vs_list (entry_of dn ms) = distinct (all_specs dn ms).
Proof.
  induction ms as [|[[n d] v] ms IH] using rev_ind; intros Hms; [done|].
  rewrite entry_of_snoc, all_specs_snoc. unfold step_entry.
  assert (n ≠ "version_specifiers") as Hn.
  { apply (Hms n d v). set_solver. }
  assert (no_reserved_name ms) as Hms'.
  { intros n' d' v' Hin. apply (Hms n' d' v'). set_solver. }
  destruct (decide (d = dn)) as [->|Hd].
  - unfold vs_list at 1. simpl. rewrite upd_lookup_vs. simpl.
    rewrite decide_False by done. fold (vs_list (entry_of dn ms)).
    by rewrite distinct_snoc, IH.
  - rewrite app_nil_r. by apply IH.
Qed.

(** *** The aggregator on lists it can process *)

Lemma build_requirements_list_ok b pl st R :
  build_requirements_list pl b = (st, inr R) →
  Forall processable pl ∧ st = after_popitem <$> pl ∧
  run b (mentions pl) ∅ = inr R ∧
  ∀ dn, R !! dn = entry_of dn (mentions pl).
Proof.
  unfold build_requirements_list. intros H.
  destruct (aggregate_loop_ok _ _ _ _ _ H) as [Hwf ->].
  split; [done|]. split; [done|].
  pose proof (aggregate_loop_run b pl ∅ Hwf) as Hrun.
  rewrite H in Hrun. simpl in Hrun. split; [done|].
  assert (run false (mentions pl) ∅ = inr R) as Hf.
  { destruct b; [by apply run_true_false|done]. }
  destruct (run_false_lookup (mentions pl) ∅) as (R' & HR' & Hlook).
  rewrite Hf in HR'. injection HR' as <-. intros dn. by rewrite Hlook.
Qed.

Lemma aggregate_loop_state_ok b pl R st R' :
  aggregate_loop b pl R = (st, inr R') → st = after_popitem <$> pl.
Proof. intros H. by destruct (aggregate_loop_ok _ _ _ _ _ H). Qed.

Lemma aggregate_loop_inr b pl R R' :
  Forall processable pl →
  run b (mentions pl) R = inr R' →
  aggregate_loop b pl R = (after_popitem <$> pl, inr R').
Proof.
  intros Hwf Hrun. rewrite <- aggregate_loop_run in Hrun by done.
  destruct (aggregate_loop b pl R) as [st out] eqn:E. simpl in Hrun. subst out.
  by rewrite (aggregate_loop_state_ok _ _ _ _ _ E).
Qed.

Lemma build_requirements_list_false pl :
  Forall processable pl →
  ∃ R, build_requirements_list pl false = (after_popitem <$> pl, inr R) ∧
       ∀ dn, R !! dn = entry_of dn (mentions pl).
Proof.
  intros Hwf.
  destruct (run_false_lookup (mentions pl) ∅) as (R & HR & Hlook).
  exists R. split; [by apply aggregate_loop_inr|].
  intros dn. by rewrite Hlook.
Qed.

(** *** Keys of an entry, and when the aggregator raises *)

Lemma nonempty_is_Some l : is_Some (nonempty l) ↔ ∃ v, v ∈ l.
Proof.
  destruct l as [|v l]; simpl; split.
  - by intros [? ?].
  - intros [v Hv]. by inversion Hv.
  - intros _. exists v. by left.
  - eauto.
Qed.

Lemma key_in_entry dn ms n :
  is_Some (default ∅ (entry_of dn ms) !! n) ↔ recorded ms n dn.
Proof.
  pose proof (entry_of_spec dn ms) as H. unfold recorded.
  destruct (entry_of dn ms) as [e|]; simpl in *.
  - destruct H as (Hne & (l & Hl & Hmem) & Hk).
    destruct (decide (n = "version_specifiers")) as [->|Hn].
    + rewrite Hl. split; [intros _|by eauto]. right. split; [done|].
      destruct (all_specs dn ms) as [|v ?] eqn:E; [done|].
      assert (v ∈ all_specs dn ms) as Hv by (rewrite E; by left).
      apply elem_of_all_specs in Hv as [n' ?]. eauto.
    + rewrite Hk, nonempty_is_Some by done.
      setoid_rewrite elem_of_specs_of. naive_solver.
  - rewrite lookup_empty. split; [by intros [? ?]|].
    assert (∀ n' v', (n', dn, v') ∉ ms) as Hno.
    { intros n' v' Hin. assert (v' ∈ all_specs dn ms) as Hv.
      { apply elem_of_all_specs. eauto. }
      rewrite H in Hv. by inversion Hv. }
    intros [[v' ?]|[_ (n' & v' & ?)]]; exfalso; by eapply Hno.
Qed.

Lemma run_true_snoc ms n dn v :
  run true (ms ++ [(n, dn, v)]) ∅ =
  match run true ms ∅ with
  | inl x => inl x
  | inr R =>
      if bool_decide (is_Some (default ∅ (entry_of dn ms) !! n))
      then inl (ValueError MultipleSpecifiers)
      else step false R (n, dn, v)
  end.
Proof.
  rewrite run_app. destruct (run true ms ∅) as [x|R] eqn:E; [done|].
  simpl. rewrite step_true.
  destruct (run_false_lookup ms ∅) as (R' & HR' & Hlook).
  rewrite (run_true_false _ _ _ E) in HR'. injection HR' as <-.
  rewrite Hlook, lookup_empty. fold (entry_of dn ms).
  case_bool_decide; [done|]. by rewrite step_false.
Qed.

Lemma run_true_exn ms x :
  run true ms ∅ = inl x → x = ValueError MultipleSpecifiers.
Proof.
  induction ms as [|[[n d] v] ms IH] using rev_ind; [done|].
  rewrite run_true_snoc. destruct (run true ms ∅) as [y|R].
  - intros [= <-]. by apply IH.
  - case_bool_decide; [by intros [= <-]|]. by rewrite step_false.
Qed.

Lemma run_true_raises ms :
  run true ms ∅ = inl (ValueError MultipleSpecifiers) ↔ meets_recorded_key ms.
Proof.
  induction ms as [|[[n d] v] ms IH] using rev_ind.
  { split; [done|]. intros (ms1 & ? & ? & ? & ? & H & _).
    by destruct ms1. }
  rewrite run_true_snoc. split.
  - destruct (run true ms ∅) as [y|R] eqn:E.
    + intros [= ->]. destruct IH as [IH _].
      destruct (IH eq_refl) as (ms1 & n' & d' & v' & ms2 & -> & Hrec).
      exists ms1, n', d', v', (ms2 ++ [(n, d, v)]).
      by rewrite <- app_assoc.
    + case_bool_decide as Hrec; [|by rewrite step_false].
      intros _. apply key_in_entry in Hrec. by exists ms, n, d, v, [].
  - intros (ms1 & n' & d' & v' & ms2 & Heq & Hrec).
    destruct ms2 as [|m ms2 _] using rev_ind.
    + apply app_inj_tail in Heq as [-> [= -> -> ->]].
      destruct (run true ms1 ∅) as [y|R] eqn:E.
      * by rewrite (run_true_exn _ _ E).
      * rewrite bool_decide_eq_true_2; [done|]. by apply key_in_entry.
    + rewrite app_comm_cons, app_assoc in Heq.
      apply app_inj_tail in Heq as [-> ->].
      destruct IH as [_ IH]. rewrite IH; [done|].
      by exists ms1, n', d', v', ms2.
Qed.

Lemma run_true_ok ms :
  (∃ R, run true ms ∅ = inr R) ↔ ¬ meets_recorded_key ms.
Proof.
  rewrite <- run_true_raises. destruct (run true ms ∅) as [x|R] eqn:E.
  - rewrite (run_true_exn _ _ E). split; [by intros [? ?]|done].
  - split; [done|eauto].
Qed.

(** *** Mentions of requirements that name other dependencies *)

Lemma other_than_single name dep : other_than name dep → single dep.
Proof. intros (dn & v & -> & _). by exists dn, v. Qed.

Lemma all_specs_app dn ms1 ms2 :
  all_specs dn (ms1 ++ ms2) = all_specs dn ms1 ++ all_specs dn ms2.
Proof. apply omap_app. Qed.

Lemma specs_of_app k dn ms1 ms2 :
  specs_of k dn (ms1 ++ ms2) = specs_of k dn ms1 ++ specs_of k dn ms2.
Proof. apply omap_app. Qed.

Lemma all_specs_cons dn n d v ms :
  all_specs dn ((n, d, v) :: ms) =
  (if decide (d = dn) then [v] else []) ++ all_specs dn ms.
Proof. unfold all_specs. simpl. by destruct (decide (d = dn)). Qed.

Lemma specs_of_cons k dn n d v ms :
  specs_of k dn ((n, d, v) :: ms) =
  (if decide (n = k ∧ d = dn) then [v] else []) ++ specs_of k dn ms.
Proof. unfold specs_of. simpl. by destruct (decide (n = k ∧ d = dn)). Qed.

Lemma all_specs_other dn n deps :
  Forall (other_than dn) deps → all_specs dn (deps ≫= mention_of n) = [].
Proof.
  induction 1 as [|dep deps (d & v & -> & Hd) _ IH]; [done|].
  simpl. unfold all_specs in *. simpl. by rewrite decide_False.
Qed.

Lemma specs_of_other k dn n deps :
  Forall (other_than dn) deps → specs_of k dn (deps ≫= mention_of n) = [].
Proof. intros H. by apply specs_of_nil, all_specs_other. Qed.

Lemma mention_of_name n deps m :
  m ∈ deps ≫= mention_of n → m.1.1 = n.
Proof.
  rewrite list_elem_of_bind. intros (dep & Hm & _).
  destruct dep as [|[d v] [|? ?]]; simpl in Hm;
    try by apply not_elem_of_nil in Hm.
  by apply list_elem_of_singleton in Hm as ->.
Qed.

Lemma mentions_cons p pl :
  mentions (p :: pl) = package_mentions p ++ mentions pl.
Proof. done. Qed.

Lemma package_mentions_single n deps :
  package_mentions [(n, deps)] = deps ≫= mention_of n.
Proof. done. Qed.

Lemma bind_app_mentions n (l1 l2 : list requirement) :
  (l1 ++ l2) ≫= mention_of n = (l1 ≫= mention_of n) ++ (l2 ≫= mention_of n).
Proof. apply bind_app. Qed.

(** ** Properties of the aggregator *)

(** C1. Package A requires [foo >=1.0] and package B requires [foo >=2.0],
    each next to any requirements on other dependencies: the aggregated
    result has an entry for [foo] whose [version_specifiers] is
    [[">=1.0"; ">=2.0"]], which the presentation layer flags as a conflict,
    and whose per-package lists are [A: [">=1.0"]] and [B: [">=2.0"]]. *)
Theorem foo_scenario (ra1 ra2 rb1 rb2 : list requirement) :
  Forall (other_than "foo") (ra1 ++ ra2) →
  Forall (other_than "foo") (rb1 ++ rb2) →
  ∃ R foo,
    build_requirements_list
      [ [("A", ra1 ++ [("foo", ">=1.0")] :: ra2)];
        [("B", rb1 ++ [("foo", ">=2.0")] :: rb2)] ] false
    = ([ []; [] ], inr R) ∧
    R !! "foo" = Some foo ∧
    foo !! "version_specifiers" = Some [">=1.0"; ">=2.0"] ∧
    conflict foo = inr true ∧
    foo !! "A" = Some [">=1.0"] ∧
    foo !! "B" = Some [">=2.0"].
Proof.
  intros [Ha1 Ha2]%Forall_app [Hb1 Hb2]%Forall_app.
  set (pl := [ [("A", _)]; [("B", _)] ]).
  assert (Forall processable pl) as Hwf.
  { repeat constructor.
    - exists "A", (ra1 ++ [("foo", ">=1.0")] :: ra2), []. split; [done|].
      apply Forall_app. split; [|constructor; [by eexists _, _|]];
        eapply Forall_impl; eauto using other_than_single.
    - exists "B", (rb1 ++ [("foo", ">=2.0")] :: rb2), []. split; [done|].
      apply Forall_app. split; [|constructor; [by eexists _, _|]];
        eapply Forall_impl; eauto using other_than_single. }
  destruct (build_requirements_list_false pl Hwf) as (R & HR & Hlook).
  assert (mentions pl =
          ((ra1 ≫= mention_of "A") ++ ("A", "foo", ">=1.0") ::
             (ra2 ≫= mention_of "A")) ++
          ((rb1 ≫= mention_of "B") ++ ("B", "foo", ">=2.0") ::
             (rb2 ≫= mention_of "B"))) as Hms.
  { unfold pl. rewrite !mentions_cons, !package_mentions_single.
    rewrite !bind_app_mentions. unfold mentions. simpl. by rewrite app_nil_r. }
  assert (all_specs "foo" (mentions pl) = [">=1.0"; ">=2.0"]) as Hall.
  { rewrite Hms. rewrite !all_specs_app, !all_specs_cons.
    by rewrite !all_specs_other. }
  assert (no_reserved_name (mentions pl)) as Hnames.
  { intros n d v. rewrite Hms, !elem_of_app, !elem_of_cons.
    intros [[H|[H|H]]|[H|[H|H]]]; simplify_eq; try done;
      apply mention_of_name in H; simpl in H; by subst. }
  pose proof (entry_of_spec "foo" (mentions pl)) as Hspec.
  pose proof (vs_list_distinct "foo" (mentions pl) Hnames) as Hvs.
  rewrite <- Hlook in Hspec, Hvs. rewrite Hall in Hvs.
  destruct (R !! "foo") as [foo|] eqn:Hfoo; unfold entry_spec in Hspec;
    [|by rewrite Hall in Hspec].
  destruct Hspec as (_ & (l & Hl & _) & Hk).
  unfold vs_list in Hvs. simpl in Hvs. rewrite Hl in Hvs. simpl in Hvs.
  subst l. exists R, foo. split; [done|]. split; [done|].
  split; [done|]. split; [unfold conflict, getitem; by rewrite Hl|].
  rewrite !Hk by done. rewrite Hms.
  rewrite !specs_of_app, !specs_of_cons, !specs_of_other by done. done.
Qed.

(** *** Conflicts *)



(** *** Order of the packages *)

Lemma mentions_Permutation pl pl' : pl ≡ₚ pl' → mentions pl ≡ₚ mentions pl'.
Proof. intros H. unfold mentions. by rewrite H. Qed.

Lemma elem_of_vs_list dn ms v :
  v ∈ vs_list (entry_of dn ms) ↔ ∃ n, (n, dn, v) ∈ ms.
Proof.
  unfold vs_list. rewrite (entry_spec_vs dn ms) by apply entry_of_spec.
  apply elem_of_all_specs.
Qed.

Lemma entry_of_is_Some dn ms :
  is_Some (entry_of dn ms) ↔ ∃ n v, (n, dn, v) ∈ ms.
Proof.
  pose proof (entry_of_spec dn ms) as H.
  destruct (entry_of dn ms) as [e|]; simpl in H.
  - split; [intros _|by eauto]. destruct H as (Hne & _).
    destruct (all_specs dn ms) as [|v l] eqn:E; [done|].
    assert (v ∈ all_specs dn ms) as Hv by (rewrite E; by left).
    apply elem_of_all_specs in Hv as [n ?]. eauto.
  - split; [by intros [? ?]|]. intros (n & v & Hin).
    assert (v ∈ all_specs dn ms) as Hv by (apply elem_of_all_specs; eauto).
    rewrite H in Hv. by inversion Hv.
Qed.

Lemma no_reserved_name_Permutation ms ms' :
  ms ≡ₚ ms' → no_reserved_name ms → no_reserved_name ms'.
Proof. intros H Hms n d v Hin. apply (Hms n d v). by rewrite H. Qed.

Lemma entry_of_vs_lookup dn ms e :
  entry_of dn ms = Some e →
  e !! "version_specifiers" = Some (vs_list (entry_of dn ms)).
Proof.
  intros He. pose proof (entry_of_spec dn ms) as H. rewrite He in H.
  destruct H as (_ & (l & Hl & _) & _). unfold vs_list.
  rewrite He. simpl. by rewrite Hl.
Qed.

Lemma order_independent b b' pl pl' st st' R R' :
  pl ≡ₚ pl' →
  build_requirements_list pl b = (st, inr R) →
  build_requirements_list pl' b' = (st', inr R') →
  dom R = dom R' ∧
  (∀ dn, version_specifier_set R dn = version_specifier_set R' dn) ∧
  (no_reserved_name (mentions pl) →
   ∀ dn e, R !! dn = Some e →
           ∃ e', R' !! dn = Some e' ∧ conflict e = conflict e').
Proof.
  intros Hperm%mentions_Permutation
    (_ & _ & _ & HR)%build_requirements_list_ok
    (_ & _ & _ & HR')%build_requirements_list_ok.
  split; [|split].
  - apply set_eq. intros dn. rewrite !elem_of_dom, HR, HR'.
    rewrite !entry_of_is_Some. by setoid_rewrite Hperm.
  - intros dn. apply set_eq. intros v. unfold version_specifier_set.
    rewrite !elem_of_list_to_set, HR, HR'.
    fold (vs_list (entry_of dn (mentions pl))).
    fold (vs_list (entry_of dn (mentions pl'))).
    rewrite !elem_of_vs_list. by setoid_rewrite Hperm.
  - intros Hnames dn e He. rewrite HR in He.
    assert (is_Some (entry_of dn (mentions pl'))) as [e' He'].
    { apply entry_of_is_Some. setoid_rewrite <- Hperm.
      apply entry_of_is_Some. eauto. }
    exists e'. split; [by rewrite HR'|]. unfold conflict, getitem.
    rewrite (entry_of_vs_lookup _ _ _ He), (entry_of_vs_lookup _ _ _ He').
    simpl. do 2 f_equal.
    rewrite !vs_list_distinct
      by eauto using no_reserved_name_Permutation.
    apply bool_decide_ext. erewrite Permutation_length; [done|].
    apply NoDup_Permutation; [apply NoDup_distinct..|].
    intros v. rewrite !elem_of_distinct, !elem_of_all_specs.
    by setoid_rewrite Hperm.
Qed.

(** C6, as stated, fails in its second half: the two orders of the same two
    packages record the same set of specifiers for [foo], but the length of
    ['version_specifiers'], hence the conflict flag, differs when a package
    is called [version_specifiers]; and with [raise_on_confict] the
    aggregator returns on one order and raises on the other. *)
Lemma conflict_flag_depends_on_order :
  reserved_last ≡ₚ reserved_first ∧
  (∃ e_last e_first,
    (build_requirements_list reserved_last false).2
      = inr {[ "foo" := e_last ]} ∧
    (build_requirements_list reserved_first false).2
      = inr {[ "foo" := e_first ]} ∧
    e_last !! "version_specifiers" = Some ["==1.0"; "==1.0"] ∧
    e_first !! "version_specifiers" = Some ["==1.0"] ∧
    conflict e_last = inr true ∧
    conflict e_first = inr false) ∧
  (build_requirements_list reserved_first true).2
    = inr {[ "foo" := {[ "A" := ["==1.0"];
                         "version_specifiers" := ["==1.0"] ]} ]} ∧
  (build_requirements_list reserved_last true).2
    = inl (ValueError MultipleSpecifiers).
Proof.
  split; [apply perm_swap|]. split.
  - exists {[ "A" := ["==1.0"]; "version_specifiers" := ["==1.0"; "==1.0"] ]},
           {[ "A" := ["==1.0"]; "version_specifiers" := ["==1.0"] ]}.
    repeat split; by vm_compute.
  - split; by vm_compute.
Qed.

(** C9, as stated, fails: after aggregating the two packages of the
    scenario the caller's two dicts are empty. *)
Lemma input_is_mutated :
  (build_requirements_list
     [ [("A", [ [("foo", ">=1.0")] ])]; [("B", [ [("foo", ">=2.0")] ])] ]
     false).1
  = [ []; [] ].
Proof. by vm_compute. Qed.

(** C9, amended.  The result of the aggregator is a function of its input,
    but the input is not left unchanged: when the aggregator returns, every
    dict of the list has lost the item [popitem] removed from it, so a
    [PackageRequirements] with its single key is left empty. *)
Theorem aggregate_pops_every_package (pl : list package_requirements) b st R :
  build_requirements_list pl b = (st, inr R) →
  Forall2 (λ p p', ∃ item, popitem p = Some (item, p')) pl st ∧
  (∀ i n reqs, pl !! i = Some [(n, reqs)] → st !! i = Some []) ∧
  (pl ≠ [] → st ≠ pl).
Proof.
  intros (Hwf & -> & _)%build_requirements_list_ok.
  assert (Forall2 (λ p p', ∃ item, popitem p = Some (item, p')) pl
            (after_popitem <$> pl)) as H2.
  { apply Forall2_fmap_r, Forall_Forall2_diag.
    eapply Forall_impl; [exact Hwf|]. intros p (n & dl & p' & Hp & _).
    exists (n, dl). unfold after_popitem. by rewrite Hp. }
  split; [done|]. split.
  - intros i n reqs Hi. by rewrite list_lookup_fmap, Hi.
  - intros Hne Heq. destruct pl as [|p pl]; [done|].
    inversion H2 as [|? ? ? ? [item Hp] _]; subst.
    injection Heq as Heq _. rewrite Heq in Hp.
    apply popitem_Some in Hp. apply (f_equal length) in Hp.
    rewrite length_app in Hp. simpl in Hp. lia.
Qed.

(** *** Keys of the entries *)

Lemma elem_of_mentioning dn ms n :
  n ∈ mentioning dn ms ↔ ∃ v, (n, dn, v) ∈ ms.
Proof.
  unfold mentioning. rewrite list_elem_of_omap. split.
  - intros ([[n' d] v] & Hin & H). destruct (decide (d = dn)) as [->|]; [|done].
    injection H as ->. by exists v.
  - intros (v & Hin). exists (n, dn, v). split; [done|]. by rewrite decide_True.
Qed.

Lemma entry_dom dn ms e :
  entry_of dn ms = Some e →
  dom e = {["version_specifiers"]} ∪ list_to_set (mentioning dn ms).
Proof.
  intros He. apply set_eq. intros k.
  rewrite elem_of_dom, elem_of_union, elem_of_singleton, elem_of_list_to_set.
  rewrite elem_of_mentioning.
  pose proof (key_in_entry dn ms k) as Hkey. rewrite He in Hkey. simpl in Hkey.
  rewrite Hkey. unfold recorded. split; [naive_solver|].
  intros [->|?]; [|by left]. right. split; [done|].
  apply entry_of_is_Some. by rewrite He.
Qed.

(** C10. When no package is called [version_specifiers], the keys of every
    entry of the result are the names of the packages that mention the
    dependency and, next to them, the one key ['version_specifiers'].  A
    package called [version_specifiers] breaks this: with such a package
    after package [A], the entry of [foo] has two keys for two packages, and
    the list under ['version_specifiers'] is neither the list of that
    package nor the list of distinct specifiers. *)
Theorem entry_keys :
  (∀ (pl : list package_requirements) b st R,
     no_reserved_name (mentions pl) →
     build_requirements_list pl b = (st, inr R) →
     ∀ dn e, R !! dn = Some e →
       let names : gset string := list_to_set (mentioning dn (mentions pl)) in
       dom e = {["version_specifiers"]} ∪ names ∧
       ("version_specifiers" ∉ names) ∧
       size (dom e) = S (size names)) ∧
  (∃ e,
     (build_requirements_list reserved_last false).2 = inr {[ "foo" := e ]} ∧
     mentioning "foo" (mentions reserved_last) = ["A"; "version_specifiers"] ∧
     dom e = ({[ "A"; "version_specifiers" ]} : gset string) ∧
     size (dom e) = 2 ∧
     e !! "version_specifiers" = Some ["==1.0"; "==1.0"] ∧
     specs_of "version_specifiers" "foo" (mentions reserved_last) = ["==1.0"] ∧
     distinct (all_specs "foo" (mentions reserved_last)) = ["==1.0"]).
Proof.
  split.
  - intros pl b st R Hnames (_ & _ & _ & HR)%build_requirements_list_ok dn e He.
    rewrite HR in He. simpl.
    assert ("version_specifiers" ∉
              (list_to_set (mentioning dn (mentions pl)) : gset string)) as Hvs.
    { rewrite elem_of_list_to_set, elem_of_mentioning. intros [v Hin].
      by apply (Hnames _ _ _ Hin). }
    split; [by apply entry_dom|]. split; [done|].
    rewrite (entry_dom _ _ _ He), size_union, size_singleton by set_solver.
    done.
  - exists {[ "A" := ["==1.0"]; "version_specifiers" := ["==1.0"; "==1.0"] ]}.
    repeat split; by vm_compute.
Qed.

Example split_two : split "  Sphinx 	 (>=1.5.1) " = ["Sphinx"; "(>=1.5.1)"].
Proof. reflexivity. Qed.

Example canonicalize_example :
  canonicalize_name "Foo__Bar.-baz" = "foo-bar-baz".
Proof. reflexivity. Qed.

Example extract_example :
  @build_package_requirements
    (example_runtime
       {| md_name := Some "invenio";
          md_groups := {[ "run_requires" :=
                            [ {| extra := None;
                                 requires := Some ["Sphinx (>=1.5.1)"] |} ] ]} |})
    "{}" ∅
  = inr [("invenio", [ [("sphinx", "(>=1.5.1)")] ])].
Proof. vm_compute. reflexivity. Qed.

(** *** The selection of the requirement strings *)

Lemma build_package_requirements_unfold `{Runtime} doc kwargs :
  build_package_requirements doc kwargs =
  if decide (doc = "") then inl (ValueError NoMetadata) else
  match json_loads doc with
  | None => inl (ValueError JSONDecode)
  | Some md =>
      s ← include_all kwargs md group_keys ∅;
      package_name ← from_option inr (inl KeyError) (md_name md);
      reqs ← to_requirements (set_to_list s);
      inr [(package_name, reqs)]
  end.
Proof.
  unfold build_package_requirements. destruct (decide (doc = "")); [done|].
  destruct (json_loads doc) as [md|]; [|done]. simpl.
  destruct (include kwargs "run_requires" md ∅) as [|s1]; [done|]. simpl.
  destruct (include kwargs "test_requires" md s1) as [|s2]; [done|]. simpl.
  destruct (include kwargs "meta_requires" md s2) as [|s3]; [done|]. simpl.
  destruct (include kwargs "build_requires" md s3) as [|s4]; [done|]. simpl.
  by destruct (include kwargs "dev_requires" md s4).
Qed.

Lemma include_all_ok kwargs md keys s :
  selectable kwargs md keys →
  include_all kwargs md keys s
  = inr (s ∪ ⋃ (selection kwargs md <$> keys)).
Proof.
  revert s. induction keys as [|key keys IH]; intros s Hsel.
  { simpl. f_equal. set_solver. }
  simpl. unfold include, selection at 1. fold (enabled kwargs key).
  destruct (enabled kwargs key) eqn:Hen.
  - destruct (Hsel key) as [reqs Hreqs]; [by left|done|].
    rewrite Hreqs. simpl. rewrite IH.
    + f_equal. set_solver.
    + intros k Hk. apply Hsel. by right.
  - simpl. rewrite IH.
    + f_equal. set_solver.
    + intros k Hk. apply Hsel. by right.
Qed.

Lemma include_all_TypeError kwargs md keys s key :
  key ∈ keys → enabled kwargs key = true →
  _get_requirements key md = None →
  include_all kwargs md keys s = inl TypeError.
Proof.
  intros Hin Hen Hnone. revert s.
  induction keys as [|k keys IH]; intros s; [by inversion Hin|].
  simpl. unfold include at 1. fold (enabled kwargs k).
  destruct (decide (k = key)) as [->|Hne].
  - by rewrite Hen, Hnone.
  - destruct (enabled kwargs k); simpl.
    + destruct (_get_requirements k md); simpl; [|done].
      apply IH. by apply elem_of_cons in Hin as [?|?].
    + apply IH. by apply elem_of_cons in Hin as [?|?].
Qed.

Lemma include_all_inv kwargs md keys s :
  (selectable kwargs md keys ∧
   include_all kwargs md keys s = inr (s ∪ ⋃ (selection kwargs md <$> keys)))
  ∨ include_all kwargs md keys s = inl TypeError.
Proof.
  destruct (decide (Forall (λ key, enabled kwargs key = true →
                                   is_Some (_get_requirements key md)) keys))
    as [Hall|Hex].
  - left. assert (selectable kwargs md keys) as Hsel.
    { intros key Hin. by apply (proj1 (Forall_forall _ _) Hall). }
    split; [done|]. by apply include_all_ok.
  - right. apply not_Forall_Exists in Hex; [|apply _].
    apply Exists_exists in Hex as (key & Hin & Hkey). simpl in Hkey.
    destruct (enabled kwargs key) eqn:Hen; [|by destruct Hkey].
    apply include_all_TypeError with key; [done..|].
    destruct (_get_requirements key md); [|done]. destruct Hkey. eauto.
Qed.

(** *** The loop over the strings *)

Lemma to_requirement_cases s :
  (∃ dep ver, split s = [dep; ver] ∧
              to_requirement s = inr [(canonicalize_name dep, ver)])
  ∨ (length (split s) ≠ 2 ∧ to_requirement s = inl (ValueError Unpack)).
Proof.
  unfold to_requirement.
  destruct (split s) as [|dep [|ver [|? ?]]]; simpl; eauto.
Qed.

Lemma to_requirements_ok strings :
  Forall (λ s, length (split s) = 2) strings →
  ∃ reqs, to_requirements strings = inr reqs ∧
          Forall2 (λ s r, to_requirement s = inr r) strings reqs.
Proof.
  induction 1 as [|s strings Hs _ (reqs & IH & IH2)]; [by exists []|].
  destruct (to_requirement_cases s) as [(dep & ver & _ & Hr)|[? _]]; [|done].
  exists ([(canonicalize_name dep, ver)] :: reqs). simpl.
  rewrite Hr, IH. split; [done|]. by constructor.
Qed.

Lemma to_requirements_fail strings :
  Exists (λ s, length (split s) ≠ 2) strings →
  to_requirements strings = inl (ValueError Unpack).
Proof.
  induction 1 as [s strings Hs|s strings _ IH]; simpl.
  - destruct (to_requirement_cases s) as [(dep & ver & Hsp & _)|[_ ->]];
      [|done]. by rewrite Hsp in Hs.
  - destruct (to_requirement_cases s) as [(dep & ver & _ & ->)|[_ ->]];
      [|done]. simpl. by rewrite IH.
Qed.

Lemma to_requirements_Forall2 strings reqs :
  Forall2 (λ s r, to_requirement s = inr r) strings reqs →
  ∀ s, s ∈ strings →
       ∃ dep ver, split s = [dep; ver] ∧ [(canonicalize_name dep, ver)] ∈ reqs.
Proof.
  induction 1 as [|s r strings reqs Hr _ IH]; intros s' Hin;
    [by inversion Hin|].
  apply elem_of_cons in Hin as [->|Hin].
  - destruct (to_requirement_cases s) as [(dep & ver & Hsp & Hr')|[_ Hr']];
      rewrite Hr' in Hr; [|done].
    injection Hr as <-. exists dep, ver. split; [done|]. by left.
  - destruct (IH _ Hin) as (dep & ver & ? & ?). exists dep, ver.
    split; [done|]. by right.
Qed.

Lemma build_on_selected `{Runtime} doc kwargs md n :
  doc ≠ "" → json_loads doc = Some md → md_name md = Some n →
  selectable kwargs md group_keys →
  build_package_requirements doc kwargs =
  (reqs ← to_requirements (set_to_list (selected_strings kwargs md));
   inr [(n, reqs)]).
Proof.
  intros Hdoc Hmd Hn Hsel. rewrite build_package_requirements_unfold.
  rewrite decide_False, Hmd, include_all_ok, Hn by done. simpl.
  by rewrite (left_id_L ∅ (∪)).
Qed.

(** ** Properties of the extractor *)

(** C3, as stated, fails: the strings [Foo >=1.0] and [foo >=1.0] denote
    the same pair [(foo, >=1.0)], and the result holds the pair twice. *)
Lemma same_pair_kept_twice :
  @build_package_requirements (example_runtime spelled_twice) "{...}" ∅
  = inr [("pkg", [ [("foo", ">=1.0")]; [("foo", ">=1.0")] ])].
Proof. vm_compute. reflexivity. Qed.

(** C3, amended.  For a document that parses, has a name, and whose enabled
    groups each select an iterable of two-token strings, the extractor
    unions the requirements of the enabled groups by requirement string:
    the result has one entry for each distinct selected string (equal
    strings collapse into one entry, different strings never do), so two
    strings with the same dependency name and differing specifiers both
    survive as entries. *)
Theorem union_by_string `{Runtime} doc kwargs md n :
  doc ≠ "" → json_loads doc = Some md → md_name md = Some n →
  selectable kwargs md group_keys →
  (∀ s, s ∈ selected_strings kwargs md → length (split s) = 2) →
  ∃ reqs strings,
    build_package_requirements doc kwargs = inr [(n, reqs)] ∧
    strings ≡ₚ elements (selected_strings kwargs md) ∧
    NoDup strings ∧
    Forall2 (λ s r, to_requirement s = inr r) strings reqs ∧
    length reqs = size (selected_strings kwargs md) ∧
    (∀ dep ver ver' s s',
       s ∈ selected_strings kwargs md → s' ∈ selected_strings kwargs md →
       split s = [dep; ver] → split s' = [dep; ver'] → ver ≠ ver' →
       [(canonicalize_name dep, ver)] ∈ reqs ∧
       [(canonicalize_name dep, ver')] ∈ reqs).
Proof.
  intros Hdoc Hmd Hn Hsel Htwo.
  set (S := selected_strings kwargs md) in *.
  pose proof (set_to_list_perm S) as Hperm.
  destruct (to_requirements_ok (set_to_list S)) as (reqs & Hreqs & H2).
  { apply Forall_forall. intros s Hs. apply Htwo.
    rewrite Hperm in Hs. by apply elem_of_elements in Hs. }
  exists reqs, (set_to_list S).
  rewrite (build_on_selected doc kwargs md n) by done. fold S.
  rewrite Hreqs. split; [done|]. split; [done|].
  split; [rewrite Hperm; apply NoDup_elements|]. split; [done|].
  split.
  { rewrite <- (Forall2_length _ _ _ H2), Hperm. done. }
  intros dep ver ver' s s' Hs Hs' Hsp Hsp' _.
  assert (∀ x, x ∈ S → x ∈ set_to_list S) as Hin.
  { intros x Hx. rewrite Hperm. by apply elem_of_elements. }
  destruct (to_requirements_Forall2 _ _ H2 s (Hin _ Hs))
    as (d1 & v1 & E1 & ?).
  destruct (to_requirements_Forall2 _ _ H2 s' (Hin _ Hs'))
    as (d2 & v2 & E2 & ?).
  rewrite Hsp in E1. rewrite Hsp' in E2. by simplify_eq.
Qed.

(** C7.  For a document that parses, has a name, and whose enabled groups
    each select an iterable: when every selected string splits on
    whitespace into exactly two tokens the extractor returns, each string
    giving the entry of its canonicalized first token and its second token;
    when some selected string splits into another number of tokens the
    extractor fails with the [ValueError] of the unpacking. *)
Theorem two_tokens_or_error `{Runtime} doc kwargs md n :
  doc ≠ "" → json_loads doc = Some md → md_name md = Some n →
  selectable kwargs md group_keys →
  ((∀ s, s ∈ selected_strings kwargs md → length (split s) = 2) →
   ∃ reqs,
     build_package_requirements doc kwargs = inr [(n, reqs)] ∧
     ∀ s, s ∈ selected_strings kwargs md →
          ∃ dep ver, split s = [dep; ver] ∧
                     [(canonicalize_name dep, ver)] ∈ reqs) ∧
  (∀ s, s ∈ selected_strings kwargs md → length (split s) ≠ 2 →
        build_package_requirements doc kwargs = inl (ValueError Unpack)) ∧
  (∀ out, build_package_requirements doc kwargs = inr out →
          ∀ s, s ∈ selected_strings kwargs md → length (split s) = 2).
Proof.
  intros Hdoc Hmd Hn Hsel.
  set (S := selected_strings kwargs md) in *.
  pose proof (set_to_list_perm S) as Hperm.
  assert (∀ x, x ∈ S ↔ x ∈ set_to_list S) as Hin.
  { intros x. by rewrite Hperm, elem_of_elements. }
  assert (∀ s, s ∈ S → length (split s) ≠ 2 →
               build_package_requirements doc kwargs
               = inl (ValueError Unpack)) as Hfail.
  { intros s Hs Hlen.
    rewrite (build_on_selected doc kwargs md n) by done. fold S.
    rewrite to_requirements_fail; [done|].
    apply Exists_exists. exists s. split; [by apply Hin|done]. }
  split; [|split; [done|]].
  - intros Htwo.
    destruct (to_requirements_ok (set_to_list S)) as (reqs & Hreqs & H2).
    { apply Forall_forall. intros s Hs. by apply Htwo, Hin. }
    exists reqs. rewrite (build_on_selected doc kwargs md n) by done. fold S.
    rewrite Hreqs. split; [done|]. intros s Hs.
    by apply (to_requirements_Forall2 _ _ H2), Hin.
  - intros out Hout s Hs.
    destruct (decide (length (split s) = 2)) as [|Hne]; [done|].
    rewrite (Hfail s Hs Hne) in Hout. done.
Qed.

(** *** The choice among sub-groups *)

Lemma first_all_None gs :
  Forall (λ g, extra g ≠ Some "all") gs → first_all gs = None.
Proof.
  induction 1 as [|g gs Hg _ IH]; [done|]. simpl. by rewrite decide_False.
Qed.

Lemma first_all_app gs1 g gs2 :
  Forall (λ g', extra g' ≠ Some "all") gs1 → extra g = Some "all" →
  first_all (gs1 ++ g :: gs2) = requires g.
Proof.
  intros H Hg. induction H as [|g' gs1 Hg' _ IH]; simpl.
  - by rewrite decide_True.
  - by rewrite decide_False.
Qed.

Lemma _get_requirements_all key md gs1 g gs2 :
  md_groups md !! key = Some (gs1 ++ g :: gs2) → gs1 ++ gs2 ≠ [] →
  Forall (λ g', extra g' ≠ Some "all") gs1 → extra g = Some "all" →
  _get_requirements key md = requires g.
Proof.
  intros Hkey Hne H1 Hg. unfold _get_requirements. rewrite Hkey. simpl.
  rewrite decide_True.
  - by apply first_all_app.
  - rewrite length_app. simpl. destruct gs1, gs2; simpl; try lia. done.
Qed.

Lemma _get_requirements_singleton key md g :
  md_groups md !! key = Some [g] → _get_requirements key md = requires g.
Proof. intros Hkey. unfold _get_requirements. by rewrite Hkey. Qed.



(** C5.  An enabled group key holds two or more sub-groups none of which is
    tagged [extra == "all"], or the sub-group that is selected has no
    ['requires']: the selection is [None] and the extractor raises
    [TypeError], whatever the rest of the document. *)
Theorem unselectable_group_raises `{Runtime} doc kwargs md key gs :
  doc ≠ "" → json_loads doc = Some md →
  key ∈ group_keys → enabled kwargs key = true →
  md_groups md !! key = Some gs →
  ((2 ≤ length gs)%nat ∧ Forall (λ g, extra g ≠ Some "all") gs) ∨
  (∃ g, gs = [g] ∧ requires g = None) ∨
  (∃ gs1 g gs2, gs = gs1 ++ g :: gs2 ∧ gs1 ++ gs2 ≠ [] ∧
                Forall (λ g', extra g' ≠ Some "all") gs1 ∧
                extra g = Some "all" ∧ requires g = None) →
  _get_requirements key md = None ∧
  build_package_requirements doc kwargs = inl TypeError.
Proof.
  intros Hdoc Hmd Hin Hen Hkey Hcases.
  assert (_get_requirements key md = None) as Hnone.
  { destruct Hcases as [[Hlen Hall]|[(g & -> & Hg)|
      (gs1 & g & gs2 & -> & Hne & H1 & Hg & Hreq)]].
    - unfold _get_requirements. rewrite Hkey. simpl.
      rewrite decide_True by lia. by apply first_all_None.
    - by rewrite (_get_requirements_singleton key md g).
    - by rewrite (_get_requirements_all key md gs1 g gs2). }
  split; [done|]. rewrite build_package_requirements_unfold.
  rewrite decide_False, Hmd by done.
  by rewrite (include_all_TypeError kwargs md group_keys ∅ key).
Qed.

(** *** Canonical names *)

Lemma lower_char_idemp c : lower_char (lower_char c) = lower_char c.
Proof. by destruct c as [[] [] [] [] [] [] [] []]. Qed.

Lemma is_separator_lower_char c :
  is_separator (lower_char c) = is_separator c.
Proof. by destruct c as [[] [] [] [] [] [] [] []]. Qed.

Lemma lower_char_separator c : is_separator c = true → lower_char c = c.
Proof. by destruct c as [[] [] [] [] [] [] [] []]. Qed.

Lemma lower_idemp s : lower (lower s) = lower s.
Proof.
  induction s as [|c s IH]; [done|]. simpl. by rewrite lower_char_idemp, IH.
Qed.

Lemma normalize_separators_lower b s :
  normalize_separators b (lower (normalize_separators b s))
  = lower (normalize_separators b s).
Proof.
  revert b. induction s as [|c s IH]; intros b; [done|]. simpl.
  destruct (is_separator c) eqn:Hc.
  - destruct b; [apply IH|]. simpl. by rewrite IH.
  - simpl. by rewrite is_separator_lower_char, Hc, IH.
Qed.

Lemma same_name_normalize s1 s2 :
  same_name s1 s2 →
  ∀ b, lower (normalize_separators b s1) = lower (normalize_separators b s2).
Proof.
  induction 1 as [|c1 c2 s1 s2 H1 H2 Hc _ IH|c1 c2 s1 s2 H1 H2 _ IH|
                  c c' s1 s2 Hc Hc' _ IH|c c' s1 s2 Hc Hc' _ IH]; intros b.
  - done.
  - simpl. rewrite H1, H2. simpl. by rewrite Hc, IH.
  - simpl. rewrite H1, H2. destruct b; simpl; by rewrite IH.
  - rewrite <- IH. simpl. rewrite Hc, Hc'. by destruct b.
  - rewrite IH. simpl. rewrite Hc, Hc'. by destruct b.
Qed.

(** C8.  Canonicalization is idempotent, and two spellings of a name that
    differ only in the case of letters or in the style of separators have
    the same canonical name. *)
Theorem canonicalize_name_idempotent :
  (∀ x, canonicalize_name (canonicalize_name x) = canonicalize_name x) ∧
  (∀ x y, same_name x y → canonicalize_name x = canonicalize_name y).
Proof.
  split.
  - intros x. unfold canonicalize_name.
    by rewrite normalize_separators_lower, lower_idemp.
  - intros x y Hxy. by apply same_name_normalize.
Qed.

Example spellings : same_name "Foo__Bar.baz" "foo-bar-BAZ".
Proof.
  apply same_letter; [done..|]. apply same_letter; [done..|].
  apply same_letter; [done..|]. apply same_repeat_l; [done..|].
  apply same_separator; [done..|]. apply same_letter; [done..|].
  apply same_letter; [done..|]. apply same_letter; [done..|].
  apply same_separator; [done..|]. apply same_letter; [done..|].
  apply same_letter; [done..|]. apply same_letter; [done..|].
  apply same_nil.
Qed.

(** ** The theorems at concrete inputs *)

(** The scenario of the specification, by evaluation. *)
Example scenario :
  build_requirements_list
    [ [("A", [ [("foo", ">=1.0")] ])]; [("B", [ [("foo", ">=2.0")] ])] ] false
  = ([ []; [] ],
     inr {[ "foo" := {[ "A" := [">=1.0"]; "B" := [">=2.0"];
                        "version_specifiers" := [">=1.0"; ">=2.0"] ]} ]}).
Proof. vm_compute. reflexivity. Qed.

Lemma foo_scenario_witness :
  Forall (other_than "foo") ([ [("bar", "==1.0")] ] ++ []) ∧
  Forall (other_than "foo") ([] ++ [ [("baz", "<3")] ]) ∧
  ∃ R foo,
    build_requirements_list
      [ [("A", [ [("bar", "==1.0")] ] ++ [("foo", ">=1.0")] :: [])];
        [("B", [] ++ [("foo", ">=2.0")] :: [ [("baz", "<3")] ])] ] false
    = ([ []; [] ], inr R) ∧
    R !! "foo" = Some foo ∧
    foo !! "version_specifiers" = Some [">=1.0"; ">=2.0"] ∧
    conflict foo = inr true ∧
    foo !! "A" = Some [">=1.0"] ∧
    foo !! "B" = Some [">=2.0"].
Proof.
  assert (Forall (other_than "foo") ([ [("bar", "==1.0")] ] ++ [])) as Ha.
  { repeat constructor. by exists "bar", "==1.0". }
  assert (Forall (other_than "foo") ([] ++ [ [("baz", "<3")] ])) as Hb.
  { repeat constructor. by exists "baz", "<3". }
  split; [exact Ha|]. split; [exact Hb|].
  exact (foo_scenario _ _ _ _ Ha Hb).
Defined.



Lemma scenario_run b :
  build_requirements_list scenario_packages b = ([ []; [] ], inr scenario_result).
Proof. destruct b; vm_compute; reflexivity. Defined.

Lemma scenario_no_reserved_name : no_reserved_name (mentions scenario_packages).
Proof.
  intros n d v. unfold mentions, scenario_packages. simpl.
  rewrite !elem_of_cons.
  intros [?|[?|?%not_elem_of_nil]]; by simplify_eq.
Defined.

Lemma aggregate_pops_every_package_witness :
  build_requirements_list scenario_packages true
    = ([ []; [] ], inr scenario_result) ∧
  Forall2 (λ p p', ∃ item, popitem p = Some (item, p'))
    scenario_packages [ []; [] ] ∧
  (∀ i n reqs, scenario_packages !! i = Some [(n, reqs)] →
               [ []; [] ] !! i = Some ([] : package_requirements)) ∧
  (scenario_packages ≠ [] → [ []; [] ] ≠ scenario_packages).
Proof.
  split; [exact (scenario_run true)|].
  exact (aggregate_pops_every_package _ _ _ _ (scenario_run true)).
Defined.

Lemma entry_keys_witness :
  no_reserved_name (mentions scenario_packages) ∧
  build_requirements_list scenario_packages false
    = ([ []; [] ], inr scenario_result) ∧
  ∀ dn e, scenario_result !! dn = Some e →
    let names : gset string :=
      list_to_set (mentioning dn (mentions scenario_packages)) in
    dom e = {["version_specifiers"]} ∪ names ∧
    ("version_specifiers" ∉ names) ∧
    size (dom e) = S (size names).
Proof.
  split; [exact scenario_no_reserved_name|].
  split; [exact (scenario_run false)|].
  exact (proj1 entry_keys _ _ _ _ scenario_no_reserved_name
           (scenario_run false)).
Defined.

Lemma two_groups_selectable : selectable ∅ two_groups group_keys.
Proof.
  intros key Hin _. unfold group_keys in Hin.
  repeat (apply elem_of_cons in Hin as [->|Hin]);
    [vm_compute; eauto..|by apply not_elem_of_nil in Hin].
Defined.

Lemma two_groups_selected :
  selected_strings ∅ two_groups
  = list_to_set ["Sphinx (>=1.5.1)"; "Sphinx (>1.5)"; "isort (>=4.3.3)"].
Proof. vm_compute. reflexivity. Defined.

Lemma two_groups_two_tokens :
  ∀ s, s ∈ selected_strings ∅ two_groups → length (split s) = 2.
Proof.
  intros s. rewrite two_groups_selected, elem_of_list_to_set, !elem_of_cons.
  intros [->|[->|[->|?%not_elem_of_nil]]]; done.
Defined.

Lemma union_by_string_witness :
  "{...}" ≠ "" ∧
  @json_loads (example_runtime two_groups) "{...}" = Some two_groups ∧
  md_name two_groups = Some "invenio" ∧
  selectable ∅ two_groups group_keys ∧
  (∀ s, s ∈ selected_strings ∅ two_groups → length (split s) = 2) ∧
  ∃ reqs strings,
    @build_package_requirements (example_runtime two_groups) "{...}" ∅
      = inr [("invenio", reqs)] ∧
    strings ≡ₚ elements (selected_strings ∅ two_groups) ∧
    NoDup strings ∧
    Forall2 (λ s r, to_requirement s = inr r) strings reqs ∧
    length reqs = size (selected_strings ∅ two_groups) ∧
    (∀ dep ver ver' s s',
       s ∈ selected_strings ∅ two_groups →
       s' ∈ selected_strings ∅ two_groups →
       split s = [dep; ver] → split s' = [dep; ver'] → ver ≠ ver' →
       [(canonicalize_name dep, ver)] ∈ reqs ∧
       [(canonicalize_name dep, ver')] ∈ reqs).
Proof.
  assert ("{...}" ≠ "") as Hdoc by done.
  split; [exact Hdoc|]. split; [reflexivity|]. split; [reflexivity|].
  split; [exact two_groups_selectable|].
  split; [exact two_groups_two_tokens|].
  exact (@union_by_string (example_runtime two_groups) "{...}" ∅ two_groups
           "invenio" Hdoc eq_refl eq_refl two_groups_selectable
           two_groups_two_tokens).
Defined.

Lemma no_specifier_selectable : selectable ∅ no_specifier group_keys.
Proof.
  intros key Hin _. unfold group_keys in Hin.
  repeat (apply elem_of_cons in Hin as [->|Hin]);
    [vm_compute; eauto..|by apply not_elem_of_nil in Hin].
Defined.

Lemma two_tokens_or_error_witness :
  "{...}" ≠ "" ∧
  @json_loads (example_runtime no_specifier) "{...}" = Some no_specifier ∧
  md_name no_specifier = Some "pkg" ∧
  selectable ∅ no_specifier group_keys ∧
  "malformed-no-specifier" ∈ selected_strings ∅ no_specifier ∧
  length (split "malformed-no-specifier") ≠ 2 ∧
  @build_package_requirements (example_runtime no_specifier) "{...}" ∅
    = inl (ValueError Unpack).
Proof.
  assert ("{...}" ≠ "") as Hdoc by done.
  assert ("malformed-no-specifier" ∈ selected_strings ∅ no_specifier) as Hin.
  { apply elem_of_elements. vm_compute. by left. }
  assert (length (split "malformed-no-specifier") ≠ 2) as Hlen by done.
  split; [exact Hdoc|]. split; [reflexivity|]. split; [reflexivity|].
  split; [exact no_specifier_selectable|]. split; [exact Hin|].
  split; [exact Hlen|].
  exact (proj1 (proj2
           (@two_tokens_or_error (example_runtime no_specifier) "{...}" ∅
              no_specifier "pkg" Hdoc eq_refl eq_refl no_specifier_selectable))
           _ Hin Hlen).
Defined.


Lemma unselectable_group_raises_witness :
  "{...}" ≠ "" ∧
  @json_loads (example_runtime no_all) "{...}" = Some no_all ∧
  "run_requires" ∈ group_keys ∧
  enabled ∅ "run_requires" = true ∧
  md_groups no_all !! "run_requires"
    = Some [ {| extra := Some "docs"; requires := Some ["Sphinx (>=1.5.1)"] |};
             {| extra := Some "tests"; requires := Some ["isort (>=4.3.3)"] |} ] ∧
  _get_requirements "run_requires" no_all = None ∧
  @build_package_requirements (example_runtime no_all) "{...}" ∅
    = inl TypeError.
Proof.
  assert ("{...}" ≠ "") as Hdoc by done.
  assert ("run_requires" ∈ group_keys) as Hin by (by left).
  assert (md_groups no_all !! "run_requires"
          = Some [ {| extra := Some "docs";
                      requires := Some ["Sphinx (>=1.5.1)"] |};
                   {| extra := Some "tests";
                      requires := Some ["isort (>=4.3.3)"] |} ]) as Hkey
    by (vm_compute; reflexivity).
  split; [exact Hdoc|]. split; [reflexivity|]. split; [exact Hin|].
  split; [reflexivity|]. split; [exact Hkey|].
  refine (@unselectable_group_raises (example_runtime no_all) "{...}" ∅ no_all
            "run_requires" _ Hdoc eq_refl Hin eq_refl Hkey _).
  left. split; [simpl; lia|]. repeat constructor; done.
Defined.

Lemma canonicalize_name_idempotent_witness :
  same_name "Foo__Bar.baz" "foo-bar-BAZ" ∧
  canonicalize_name "Foo__Bar.baz" = canonicalize_name "foo-bar-BAZ".
Proof.
  split; [exact spellings|].
  exact (proj2 canonicalize_name_idempotent _ _ spellings).
Defined.

(** * Further properties *)

(** ** The aggregator: exceptions and the caller's list *)

Lemma after_popitem_nil : after_popitem [] = [].
Proof. done. Qed.

Lemma step_inl b R m e :
  step b R m = inl e → b = true ∧ e = ValueError MultipleSpecifiers.
Proof.
  destruct m as [[n dn] v]. destruct b.
  - rewrite step_true. case_bool_decide; [by intros [= <-]|].
    by rewrite step_false.
  - by rewrite step_false.
Qed.

Lemma add_requirements_inl b n dl R e :
  add_requirements b n dl R = inl e →
  (e = ValueError Unpack ∧ ¬ Forall single dl) ∨
  (e = ValueError MultipleSpecifiers ∧ b = true).
Proof.
  revert R. induction dl as [|d dl IH]; intros R; [done|]. simpl.
  destruct (decide (single d)) as [(dn & v & ->)|Hd].
  - rewrite add_requirement_step.
    destruct (step b R (n, dn, v)) as [x|R1] eqn:E; simpl.
    + intros [= <-]. apply step_inl in E as [-> ->]. by right.
    + intros [[-> Hdl]|?]%IH; [left|by right]. split; [done|].
      intros Hall. apply Hdl. by inversion Hall.
  - assert (add_requirement b n d R = inl (ValueError Unpack)) as ->.
    { destruct d as [|[dn v] [|? ?]]; try done. destruct Hd. by exists dn, v. }
    simpl. intros [= <-]. left. split; [done|].
    intros Hall. apply Hd. by inversion Hall.
Qed.

(** Where the loop stops when it raises. *)
Lemma aggregate_loop_inl b pl R st e :
  aggregate_loop b pl R = (st, inl e) →
  ∃ pl1 p pl2 R1,
    pl = pl1 ++ p :: pl2 ∧
    Forall processable pl1 ∧
    run b (mentions pl1) R = inr R1 ∧
    st = (after_popitem <$> pl1) ++ after_popitem p :: pl2 ∧
    ((p = [] ∧ e = KeyError) ∨
     (∃ n dl p', popitem p = Some ((n, dl), p') ∧
                 add_requirements b n dl R1 = inl e)).
Proof.
  revert R st. induction pl as [|p pl IH]; intros R st; [done|]. simpl.
  destruct (popitem p) as [[[n dl] p']|] eqn:Hp.
  - destruct (add_requirements b n dl R) as [x|R1] eqn:Hdl.
    + intros [= <- <-]. exists [], p, pl, R. split; [done|].
      split; [constructor|]. split; [done|]. split.
      { unfold after_popitem. by rewrite Hp. }
      right. by exists n, dl, p'.
    + destruct (aggregate_loop b pl R1) as [rest out] eqn:Hl.
      intros [= <- ->].
      destruct (IH _ _ Hl) as (pl1 & q & pl2 & R2 & -> & Hwf & Hrun & -> & H).
      pose proof (add_requirements_ok _ _ _ _ _ Hdl) as Hsingle.
      exists (p :: pl1), q, pl2, R2. split; [done|]. split.
      { constructor; [|done]. by exists n, dl, p'. }
      split.
      { rewrite mentions_cons, run_app. unfold package_mentions.
        rewrite Hp, <- add_requirements_run, Hdl by done. done. }
      split; [|done]. rewrite fmap_cons.
      assert (after_popitem p = p') as Hpp
        by (unfold after_popitem; by rewrite Hp).
      by rewrite Hpp.
  - intros [= <- <-]. apply popitem_None in Hp as ->.
    exists [], [], pl, R. split; [done|]. split; [constructor|].
    split; [done|]. split; [done|]. by left.
Qed.

(** X1.  The exceptions of the aggregator: [KeyError] comes from
    [popitem] on an empty dict of the list and from nowhere else (the
    lookups [requirements_list[dep_name]] never fail); the [ValueError] of
    the unpacking comes from a requirement that does not hold exactly one
    item; the [ValueError] of the conflict is raised only with
    [raise_on_confict]. *)
Theorem aggregator_exceptions (pl : list package_requirements) b st e :
  build_requirements_list pl b = (st, inl e) →
  (e = KeyError ∧ [] ∈ pl) ∨
  (e = ValueError Unpack ∧
   ∃ p n dl p', p ∈ pl ∧ popitem p = Some ((n, dl), p') ∧
                ¬ Forall single dl) ∨
  (e = ValueError MultipleSpecifiers ∧ b = true).
Proof.
  intros (pl1 & p & pl2 & R1 & -> & _ & _ & _ & H)%aggregate_loop_inl.
  destruct H as [[-> ->]|(n & dl & p' & Hp & Hdl)].
  - left. split; [done|]. set_solver.
  - apply add_requirements_inl in Hdl as [[-> Hdl]|[-> ->]].
    + right. left. split; [done|]. exists p, n, dl, p'. set_solver.
    + by right; right.
Qed.

(** X2.  Without [raise_on_confict] the aggregator returns exactly on the
    lists whose dicts are all non-empty with, in the item inserted last,
    requirements of one item each. *)
Theorem returns_iff_processable (pl : list package_requirements) :
  (∃ st R, build_requirements_list pl false = (st, inr R))
  ↔ Forall processable pl.
Proof.
  split.
  - intros (st & R & H). by apply build_requirements_list_ok in H as [? _].
  - intros Hwf. destruct (build_requirements_list_false pl Hwf) as (R & ? & _).
    eauto.
Qed.

(** X3.  When the aggregator raises, the dicts up to and including the one
    it was working on have lost the item [popitem] took, and the dicts after
    it are untouched. *)
Theorem mutation_on_exception (pl : list package_requirements) b st e :
  build_requirements_list pl b = (st, inl e) →
  ∃ pl1 p pl2,
    pl = pl1 ++ p :: pl2 ∧
    Forall processable pl1 ∧
    st = (after_popitem <$> (pl1 ++ [p])) ++ pl2.
Proof.
  intros (pl1 & p & pl2 & R1 & -> & Hwf & _ & -> & _)%aggregate_loop_inl.
  exists pl1, p, pl2. split; [done|]. split; [done|].
  by rewrite fmap_app, <- app_assoc.
Qed.

(** X4.  [raise_on_confict] only removes outcomes: when the aggregator
    returns with it, it returns the same result, and leaves the same list,
    without it. *)
Theorem raise_flag_only_raises (pl : list package_requirements) st R :
  build_requirements_list pl true = (st, inr R) →
  build_requirements_list pl false = (st, inr R).
Proof.
  intros (Hwf & -> & Hrun & _)%build_requirements_list_ok.
  apply aggregate_loop_inr; [done|]. by apply run_true_false.
Qed.

(** X5.  The aggregator cannot be run twice on the same list: after a call
    that returned on a non-empty list of single-key dicts, a second call on
    the list raises [KeyError] and changes nothing. *)
Theorem second_call_raises (pl : list package_requirements) b b' st R :
  pl ≠ [] →
  Forall (λ p, length p = 1) pl →
  build_requirements_list pl b = (st, inr R) →
  build_requirements_list st b' = (st, inl KeyError).
Proof.
  intros Hne Hlen (_ & -> & _)%build_requirements_list_ok.
  destruct pl as [|p pl]; [done|].
  apply Forall_cons in Hlen as [Hp _].
  destruct p as [|kv [|? ?]]; try done.
Qed.

(** ** The aggregator: what the result holds *)

Lemma two_distinct (l : list string) :
  NoDup l →
  (1 < length l ↔ ∃ x y, x ≠ y ∧ x ∈ l ∧ y ∈ l).
Proof.
  intros Hnd. split.
  - destruct l as [|x [|y l]]; simpl; try lia. intros _.
    exists x, y. split; [|set_solver].
    apply NoDup_cons in Hnd as [Hx _]. set_solver.
  - intros (x & y & Hxy & Hx & Hy).
    destruct l as [|a [|b l]]; simpl; [set_solver| |lia].
    apply list_elem_of_singleton in Hx, Hy. congruence.
Qed.



(** X6.  In a result of the aggregator every entry has the key
    ['version_specifiers'], with a list that is not empty, so the lookup
    [od[package]['version_specifiers']] of the report never raises; and no
    list under any key of an entry is empty. *)
Theorem entries_have_version_specifiers (pl : list package_requirements)
    b st R :
  build_requirements_list pl b = (st, inr R) →
  ∀ dn e, R !! dn = Some e →
    (∃ l, e !! "version_specifiers" = Some l ∧ l ≠ [] ∧
          conflict e = inr (bool_decide (1 < length l))) ∧
    (∀ k l, e !! k = Some l → l ≠ []).
Proof.
  intros (_ & _ & _ & HR)%build_requirements_list_ok dn e He.
  rewrite HR in He. pose proof (entry_of_spec dn (mentions pl)) as Hspec.
  rewrite He in Hspec. destruct Hspec as (Hne & (l & Hl & Hmem) & Hk).
  assert (l ≠ []) as Hl'.
  { intros ->. destruct (all_specs dn (mentions pl)) as [|v ?]; [done|].
    apply (not_elem_of_nil v), Hmem. by left. }
  split.
  - exists l. split; [done|]. split; [done|].
    unfold conflict, getitem. by rewrite Hl.
  - intros k l0 Hk0. destruct (decide (k = "version_specifiers")) as [->|Hne'].
    + by simplify_eq.
    + rewrite Hk in Hk0 by done. intros ->.
      by destruct (specs_of k dn (mentions pl)).
Qed.

(** X7.  When no package is called [version_specifiers], the list under
    ['version_specifiers'] holds the specifiers given for the dependency
    without repetition, in the order of their first mention, and the report
    flags the dependency as a conflict exactly when two packages, or one
    package twice, give it two different specifier strings. *)
Theorem conflict_iff_two_specifiers (pl : list package_requirements)
    b st R :
  no_reserved_name (mentions pl) →
  build_requirements_list pl b = (st, inr R) →
  ∀ dn e, R !! dn = Some e →
    e !! "version_specifiers" = Some (distinct (all_specs dn (mentions pl))) ∧
    NoDup (distinct (all_specs dn (mentions pl))) ∧
    (conflict e = inr true ↔
     ∃ n1 n2 v1 v2, v1 ≠ v2 ∧ (n1, dn, v1) ∈ mentions pl ∧
                    (n2, dn, v2) ∈ mentions pl).
Proof.
  intros Hnames (_ & _ & _ & HR)%build_requirements_list_ok dn e He.
  rewrite HR in He.
  pose proof (entry_of_vs_lookup _ _ _ He) as Hvs.
  rewrite vs_list_distinct in Hvs by done.
  split; [done|]. split; [apply NoDup_distinct|].
  unfold conflict, getitem. rewrite Hvs. simpl.
  set (l := distinct (all_specs dn (mentions pl))).
  assert (inr (bool_decide (1 < length l)) = @inr exn bool true
          ↔ 1 < length l) as ->.
  { split; [intros [= H]; by apply bool_decide_eq_true in H|].
    intros H. by rewrite bool_decide_eq_true_2. }
  rewrite (two_distinct l) by apply NoDup_distinct. unfold l. split.
  - intros (x & y & Hxy & Hx & Hy).
    apply elem_of_distinct, elem_of_all_specs in Hx as [n1 ?].
    apply elem_of_distinct, elem_of_all_specs in Hy as [n2 ?].
    by exists n1, n2, x, y.
  - intros (n1 & n2 & v1 & v2 & Hv & H1 & H2). exists v1, v2.
    split; [done|].
    split; apply elem_of_distinct, elem_of_all_specs; eauto.
Qed.



(** ** The extractor: exceptions and the shape of the result *)

Lemma has_space_append s c :
  has_space (String.append s (String c "")) = has_space s || isspace c.
Proof.
  induction s as [|a s IH]; simpl.
  - by rewrite orb_false_r.
  - by rewrite IH, orb_assoc.
Qed.

Lemma append_not_empty s c : String.append s (String c "") ≠ "".
Proof. by destruct s. Qed.

Lemma split_from_tokens word s :
  has_space word = false →
  Forall (λ t, t ≠ "" ∧ has_space t = false) (split_from word s).
Proof.
  revert word. induction s as [|c s IH]; intros word Hword; simpl.
  - destruct word; [constructor|]. by repeat constructor.
  - destruct (isspace c) eqn:Hc.
    + destruct word; [by apply IH|]. constructor; [done|]. by apply IH.
    + apply IH. by rewrite has_space_append, Hword, Hc.
Qed.

Lemma split_tokens s : Forall (λ t, t ≠ "" ∧ has_space t = false) (split s).
Proof. by apply split_from_tokens. Qed.

Lemma canonicalize_name_fixed d :
  canonicalize_name (canonicalize_name d) = canonicalize_name d.
Proof.
  unfold canonicalize_name. by rewrite normalize_separators_lower, lower_idemp.
Qed.

Lemma canonicalize_name_not_empty d : d ≠ "" → canonicalize_name d ≠ "".
Proof.
  destruct d as [|c d]; [done|]. intros _. unfold canonicalize_name. simpl.
  by destruct (is_separator c).
Qed.

Lemma to_requirement_emitted s r : to_requirement s = inr r → emitted r.
Proof.
  intros Hr. pose proof (split_tokens s) as Htok.
  destruct (to_requirement_cases s) as [(dep & ver & Hsp & Hr')|[_ Hr']];
    rewrite Hr' in Hr; [|done].
  injection Hr as <-. rewrite Hsp in Htok.
  apply Forall_cons in Htok as [[Hd _] Htok].
  apply Forall_cons in Htok as [[Hv Hv'] _].
  exists (canonicalize_name dep), ver. split; [done|].
  split; [apply canonicalize_name_fixed|].
  split; [by apply canonicalize_name_not_empty|done].
Qed.

Lemma to_requirements_inr strings reqs :
  to_requirements strings = inr reqs →
  Forall2 (λ s r, to_requirement s = inr r) strings reqs.
Proof.
  revert reqs. induction strings as [|s strings IH]; intros reqs; simpl.
  - intros [= <-]. constructor.
  - destruct (to_requirement s) as [|r] eqn:Hr; [done|]. simpl.
    destruct (to_requirements strings) as [|rs]; [done|]. simpl.
    intros [= <-]. constructor; [done|]. by apply IH.
Qed.

Lemma to_requirements_inl strings e :
  to_requirements strings = inl e →
  e = ValueError Unpack ∧ ∃ s, s ∈ strings ∧ length (split s) ≠ 2.
Proof.
  induction strings as [|s strings IH]; simpl; [done|].
  destruct (to_requirement_cases s) as [(dep & ver & Hsp & ->)|[Hlen ->]];
    simpl.
  - destruct (to_requirements strings) as [x|rs]; [|done]. simpl.
    intros [= <-]. destruct IH as [-> (s' & ? & ?)]; [done|].
    split; [done|]. exists s'. split; [by right|done].
  - intros [= <-]. split; [done|]. exists s. split; [by left|done].
Qed.

Lemma selectable_dec kwargs md keys : Decision (selectable kwargs md keys).
Proof.
  destruct (decide (Forall (λ key, enabled kwargs key = true →
                                   is_Some (_get_requirements key md)) keys))
    as [Hall|Hex].
  - left. intros key Hin. by apply (proj1 (Forall_forall _ _) Hall).
  - right. intros Hsel. apply Hex, Forall_forall. intros key Hin.
    by apply Hsel.
Qed.

Lemma build_selectable `{Runtime} doc kwargs md :
  doc ≠ "" → json_loads doc = Some md →
  selectable kwargs md group_keys →
  build_package_requirements doc kwargs =
  (n ← from_option inr (inl KeyError) (md_name md);
   reqs ← to_requirements (set_to_list (selected_strings kwargs md));
   inr [(n, reqs)]).
Proof.
  intros Hdoc Hmd Hsel. rewrite build_package_requirements_unfold.
  rewrite decide_False, Hmd, include_all_ok by done. simpl.
  by rewrite (left_id_L ∅ (∪)).
Qed.

Lemma build_not_selectable `{Runtime} doc kwargs md :
  doc ≠ "" → json_loads doc = Some md →
  ¬ selectable kwargs md group_keys →
  build_package_requirements doc kwargs = inl TypeError.
Proof.
  intros Hdoc Hmd Hsel. rewrite build_package_requirements_unfold.
  rewrite decide_False, Hmd by done.
  by destruct (include_all_inv kwargs md group_keys ∅) as [[? _]| ->].
Qed.

(** X10.  For a document that is not empty and that [json.loads] parses to
    metadata of the modelled shape, the extractor raises in exactly three
    cases, which the code meets in this order: [TypeError] when an enabled
    group selects [None]; [KeyError] when the groups select but the
    document has no ['name'], also when a selected string is malformed; and
    the [ValueError] of the unpacking when the name is there and a selected
    string does not split into two tokens. *)
Theorem extractor_exceptions `{Runtime} doc kwargs md e :
  doc ≠ "" → json_loads doc = Some md →
  (build_package_requirements doc kwargs = inl e ↔
   (¬ selectable kwargs md group_keys ∧ e = TypeError) ∨
   (selectable kwargs md group_keys ∧ md_name md = None ∧ e = KeyError) ∨
   (selectable kwargs md group_keys ∧ is_Some (md_name md) ∧
    (∃ s, s ∈ selected_strings kwargs md ∧ length (split s) ≠ 2) ∧
    e = ValueError Unpack)).
Proof.
  intros Hdoc Hmd.
  destruct (selectable_dec kwargs md group_keys) as [Hsel|Hns].
  2:{ rewrite (build_not_selectable doc kwargs md) by done. split.
      - intros [= <-]. by left.
      - intros [[_ ->]|[(? & _)|(? & _)]]; [done|by destruct Hns..]. }
  rewrite (build_selectable doc kwargs md) by done.
  set (S := selected_strings kwargs md).
  assert (∀ x, x ∈ set_to_list S ↔ x ∈ S) as Hin.
  { intros x. by rewrite set_to_list_perm, elem_of_elements. }
  destruct (md_name md) as [n|] eqn:Hn; simpl.
  - destruct (to_requirements (set_to_list S)) as [x|reqs] eqn:Hreqs; simpl.
    + apply to_requirements_inl in Hreqs as [-> (s & Hs & Hlen)]. split.
      * intros [= <-]. right; right. split; [done|]. split; [eauto|].
        split; [|done]. exists s. split; [by apply Hin|done].
      * intros [[Hns _]|[(_ & ? & _)|(_ & _ & _ & ->)]];
          [by destruct Hns|done..].
    + split; [done|].
      intros [[Hns _]|[(_ & ? & _)|(_ & _ & (s & Hs & Hlen) & _)]];
        [by destruct Hns|done|].
      apply to_requirements_inr in Hreqs.
      destruct (to_requirements_Forall2 _ _ Hreqs s) as (? & ? & Hsp & _);
        [by apply Hin|]. by rewrite Hsp in Hlen.
  - split.
    + intros [= <-]. right; left. done.
    + intros [[Hns _]|[(_ & _ & ->)|(_ & [? ?] & _)]];
        [by destruct Hns|done..].
Qed.

Lemma build_package_requirements_inr `{Runtime} doc kwargs out :
  build_package_requirements doc kwargs = inr out →
  ∃ md n reqs,
    json_loads doc = Some md ∧ md_name md = Some n ∧ out = [(n, reqs)] ∧
    Forall2 (λ s r, to_requirement s = inr r)
      (set_to_list (selected_strings kwargs md)) reqs.
Proof.
  intros Hout.
  destruct (decide (doc = "")) as [->|Hdoc].
  { by rewrite build_package_requirements_unfold in Hout. }
  destruct (json_loads doc) as [md|] eqn:Hmd.
  2:{ rewrite build_package_requirements_unfold in Hout.
      by rewrite decide_False, Hmd in Hout. }
  destruct (selectable_dec kwargs md group_keys) as [Hsel|Hns].
  2:{ by rewrite (build_not_selectable doc kwargs md) in Hout. }
  rewrite (build_selectable doc kwargs md) in Hout by done.
  set (S := selected_strings kwargs md) in *.
  destruct (md_name md) as [n|] eqn:Hn; simpl in Hout; [|done].
  destruct (to_requirements (set_to_list S)) as [x|reqs] eqn:Hreqs;
    simpl in Hout; [done|].
  injection Hout as <-. apply to_requirements_inr in Hreqs.
  by exists md, n, reqs.
Qed.

Lemma to_requirements_emitted strings reqs :
  Forall2 (λ s r, to_requirement s = inr r) strings reqs →
  Forall emitted reqs.
Proof.
  intros H2. apply Forall_forall. intros r Hr.
  apply list_elem_of_lookup in Hr as [i Hi].
  destruct (Forall2_lookup_r _ _ _ _ _ H2 Hi) as (s & _ & Hs).
  by eapply to_requirement_emitted.
Qed.

Lemma emitted_single r : emitted r → single r.
Proof. intros (d & v & -> & _). by exists d, v. Qed.

(** X11.  The result of the extractor is a dict with the single key
    ['name'] of the document, holding one requirement for each distinct
    selected string; every requirement has exactly one item, whose name is
    canonical and not empty and whose specifier is a non-empty token
    without whitespace; so the aggregator can process it. *)
Theorem extractor_output_shape `{Runtime} doc kwargs out :
  build_package_requirements doc kwargs = inr out →
  ∃ md n reqs,
    json_loads doc = Some md ∧ md_name md = Some n ∧
    out = [(n, reqs)] ∧
    Forall emitted reqs ∧
    length reqs = size (selected_strings kwargs md) ∧
    processable out.
Proof.
  intros (md & n & reqs & Hmd & Hn & -> & H2)%build_package_requirements_inr.
  pose proof (to_requirements_emitted _ _ H2) as Hem.
  exists md, n, reqs. split; [done|]. split; [done|]. split; [done|].
  split; [done|]. split.
  - by rewrite <- (Forall2_length _ _ _ H2), set_to_list_perm.
  - exists n, reqs, []. split; [done|].
    eapply Forall_impl; [exact Hem|]. apply emitted_single.
Qed.

(** ** The extractor: groups *)

Lemma include_all_ext_enabled kwargs md md' keys s :
  (∀ key, enabled kwargs key = true →
          _get_requirements key md = _get_requirements key md') →
  include_all kwargs md keys s = include_all kwargs md' keys s.
Proof.
  intros Hext. revert s. induction keys as [|key keys IH]; intros s; [done|].
  simpl. unfold include. fold (enabled kwargs key).
  destruct (enabled kwargs key) eqn:Hen; simpl; [|apply IH].
  rewrite Hext by done.
  destruct (_get_requirements key md'); simpl; [apply IH|done].
Qed.

Lemma set_to_list_empty `{Runtime} : set_to_list ∅ = [].
Proof.
  apply Permutation_nil_r. by rewrite set_to_list_perm, elements_empty.
Qed.

(** X12.  A document whose enabled groups are all absent or empty, whatever
    its disabled groups hold, gives the package with an empty list of
    requirements. *)
Theorem no_requirements `{Runtime} doc kwargs md n :
  doc ≠ "" → json_loads doc = Some md → md_name md = Some n →
  (∀ key, key ∈ group_keys → enabled kwargs key = true →
          default [] (md_groups md !! key) = []) →
  build_package_requirements doc kwargs = inr [(n, [])].
Proof.
  intros Hdoc Hmd Hn Hempty.
  assert (∀ key, key ∈ group_keys → enabled kwargs key = true →
                 _get_requirements key md = Some []) as Hget.
  { intros key Hin Hen. unfold _get_requirements.
    by rewrite (Hempty key Hin Hen). }
  assert (selectable kwargs md group_keys) as Hsel.
  { intros key Hin Hen. rewrite (Hget key Hin Hen). eauto. }
  assert (selected_strings kwargs md = ∅) as HS.
  { unfold selected_strings. apply empty_union_list_L, Forall_fmap, Forall_forall.
    intros key Hin. simpl. unfold selection.
    destruct (enabled kwargs key) eqn:Hen; [|done].
    by rewrite (Hget key Hin Hen). }
  rewrite (build_selectable doc kwargs md), Hn, HS, set_to_list_empty by done.
  done.
Qed.

(** X13.  A group whose key is disabled in [kwargs] is not looked at: the
    extractor returns, or raises, the same on the document in which that
    group is replaced by any other value, also one that would make an
    enabled group raise. *)
Theorem disabled_group_ignored `{Runtime} doc doc' kwargs md key gs :
  enabled kwargs key = false →
  doc ≠ "" → doc' ≠ "" →
  json_loads doc = Some md →
  json_loads doc' = Some {| md_name := md_name md;
                            md_groups := <[key := gs]> (md_groups md) |} →
  build_package_requirements doc kwargs
  = build_package_requirements doc' kwargs.
Proof.
  intros Hen Hdoc Hdoc' Hmd Hmd'.
  rewrite !build_package_requirements_unfold.
  rewrite !decide_False, Hmd, Hmd' by done.
  rewrite (include_all_ext_enabled kwargs md
             {| md_name := md_name md;
                md_groups := <[key := gs]> (md_groups md) |}); [done|].
  intros k Hk. unfold _get_requirements. simpl.
  rewrite lookup_insert_ne; [done|]. intros ->. congruence.
Qed.

(** X14.  When several sub-groups of a group are tagged [extra == "all"],
    the first of them in the order of the document is the one selected,
    whatever follows it. *)
Theorem first_all_wins key md gs1 g gs2 :
  md_groups md !! key = Some (gs1 ++ g :: gs2) →
  gs1 ++ gs2 ≠ [] →
  Forall (λ g', extra g' ≠ Some "all") gs1 →
  extra g = Some "all" →
  _get_requirements key md = requires g ∧
  ∀ kwargs, enabled kwargs key = true →
            selection kwargs md key
            = list_to_set (default [] (requires g)).
Proof.
  intros Hkey Hne H1 Hg.
  assert (_get_requirements key md = requires g) as Hget
    by by eapply _get_requirements_all.
  split; [done|]. intros kwargs Hen. unfold selection. by rewrite Hen, Hget.
Qed.

(** ** The command: extraction, then aggregation *)

Lemma requirements_of_packages_inr `{Runtime} docs rs :
  requirements_of_packages docs = inr rs →
  Forall2 (λ doc out, build_package_requirements doc ∅ = inr out) docs rs.
Proof.
  revert rs. induction docs as [|doc docs IH]; intros rs; simpl.
  - intros [= <-]. constructor.
  - destruct (build_package_requirements doc ∅) as [|out] eqn:Hout; [done|].
    simpl. destruct (requirements_of_packages docs) as [|rest]; [done|].
    simpl. intros [= <-]. constructor; [done|]. by apply IH.
Qed.


Lemma requirements_of_packages_processable `{Runtime} docs rs :
  requirements_of_packages docs = inr rs → Forall processable rs.
Proof.
  intros H2%requirements_of_packages_inr. apply Forall_forall. intros out Hin.
  apply list_elem_of_lookup in Hin as [i Hi].
  destruct (Forall2_lookup_r _ _ _ _ _ H2 Hi) as (doc & _ & Hout).
  apply build_package_requirements_inr in Hout
    as (md & n & reqs & _ & _ & -> & Hreqs).
  exists n, reqs, []. split; [done|].
  eapply Forall_impl; [by eapply to_requirements_emitted|].
  apply emitted_single.
Qed.

Lemma requirements_of_packages_extracted `{Runtime} docs rs :
  requirements_of_packages docs = inr rs → Forall extracted rs.
Proof.
  intros H2%requirements_of_packages_inr. apply Forall_forall. intros out Hin.
  apply list_elem_of_lookup in Hin as [i Hi].
  destruct (Forall2_lookup_r _ _ _ _ _ H2 Hi) as (doc & _ & Hout).
  apply build_package_requirements_inr in Hout
    as (md & n & reqs & _ & _ & -> & Hreqs).
  exists n, reqs. split; [done|].
  eapply Forall_impl; [by eapply to_requirements_emitted|].
  apply emitted_single.
Qed.

Lemma mentioned_pairs_app ms1 ms2 :
  mentioned_pairs (ms1 ++ ms2) = mentioned_pairs ms1 ++ mentioned_pairs ms2.
Proof. apply fmap_app. Qed.

Lemma elem_of_mentioned_pairs ms n dn :
  (n, dn) ∈ mentioned_pairs ms ↔ ∃ v, (n, dn, v) ∈ ms.
Proof.
  unfold mentioned_pairs. rewrite list_elem_of_fmap. split.
  - intros ([[n' d'] v] & [= -> ->] & Hin). by exists v.
  - intros [v Hin]. by exists (n, dn, v).
Qed.

(** With no reserved name among the packages, a key is met again exactly
    when a (package, dependency) pair is mentioned twice. *)
Lemma meets_recorded_key_NoDup ms :
  no_reserved_name ms →
  (meets_recorded_key ms ↔ ¬ NoDup (mentioned_pairs ms)).
Proof.
  induction ms as [|[[n d] v] ms IH] using rev_ind; intros Hnames.
  { split; [|by intros []; constructor].
    intros (ms1 & ? & ? & ? & ? & Heq & _). by destruct ms1. }
  assert (no_reserved_name ms) as Hms.
  { intros n' d' v' Hin. apply (Hnames n' d' v'). set_solver. }
  assert (n ≠ "version_specifiers") as Hn.
  { apply (Hnames n d v). set_solver. }
  rewrite mentioned_pairs_app, NoDup_app. simpl.
  assert (recorded ms n d ↔ (n, d) ∈ mentioned_pairs ms) as Hrec.
  { rewrite elem_of_mentioned_pairs. unfold recorded. split; [|by left].
    by intros [?|[? _]]. }
  split.
  - intros (ms1 & n' & d' & v' & ms2 & Heq & Hr) (Hnd & Hdisj & _).
    destruct ms2 as [|m ms2 _] using rev_ind.
    + apply app_inj_tail in Heq as [-> [= -> -> ->]].
      apply Hrec in Hr. apply (Hdisj _ Hr). by left.
    + rewrite app_comm_cons, app_assoc in Heq.
      apply app_inj_tail in Heq as [-> _].
      apply (proj1 (IH Hms)); [|done]. by exists ms1, n', d', v', ms2.
  - intros Hnot.
    destruct (decide (NoDup (mentioned_pairs ms))) as [Hnd|Hnd].
    + destruct (decide ((n, d) ∈ mentioned_pairs ms)) as [Hin|Hin].
      * exists ms, n, d, v, []. split; [done|]. by apply Hrec.
      * destruct Hnot. split; [done|]. split; [|apply NoDup_singleton].
        intros x Hx ->%list_elem_of_singleton. done.
    + apply (IH Hms) in Hnd as (ms1 & n' & d' & v' & ms2 & -> & Hr).
      exists ms1, n', d', v', (ms2 ++ [(n, d, v)]).
      by rewrite <- app_assoc.
Qed.

Lemma mentioned_pairs_extracted n reqs :
  Forall single reqs →
  mentioned_pairs (package_mentions [(n, reqs)])
  = (λ d, (n, d)) <$> requirement_names reqs.
Proof.
  unfold package_mentions. simpl.
  induction 1 as [|r reqs (d & v & ->) _ IH]; [done|].
  change (([(d, v)] :: reqs) ≫= mention_of n)
    with ([(n, d, v)] ++ (reqs ≫= mention_of n)).
  rewrite mentioned_pairs_app, IH. done.
Qed.

Lemma package_names_cons n reqs (pl : list package_requirements) :
  package_names ([(n, reqs)] :: pl) = n :: package_names pl.
Proof. done. Qed.

Lemma mentioned_pairs_names pl n d :
  Forall extracted pl →
  (n, d) ∈ mentioned_pairs (mentions pl) → n ∈ package_names pl.
Proof.
  induction 1 as [|p pl (n' & reqs & -> & Hreqs) _ IH]; [by intros ?%not_elem_of_nil|].
  rewrite mentions_cons, mentioned_pairs_app, elem_of_app.
  rewrite mentioned_pairs_extracted, package_names_cons by done.
  intros [Hin|Hin].
  - apply list_elem_of_fmap in Hin as (? & [= -> _] & _). by left.
  - right. by apply IH.
Qed.

Lemma no_reserved_name_extracted pl :
  Forall extracted pl →
  "version_specifiers" ∉ package_names pl →
  no_reserved_name (mentions pl).
Proof.
  intros Hex Hvs n d v Hin ->. apply Hvs.
  apply (mentioned_pairs_names pl _ d); [done|].
  apply elem_of_mentioned_pairs. eauto.
Qed.

Lemma NoDup_mentioned_pairs pl :
  Forall extracted pl → NoDup (package_names pl) →
  (NoDup (mentioned_pairs (mentions pl)) ↔
   ∀ n reqs, [(n, reqs)] ∈ pl → NoDup (requirement_names reqs)).
Proof.
  induction 1 as [|p pl (n & reqs & -> & Hreqs) Hex IH].
  { intros _. split; [by intros _ ? ? ?%not_elem_of_nil|constructor]. }
  rewrite package_names_cons. intros [Hn Hnd]%NoDup_cons.
  rewrite mentions_cons, mentioned_pairs_app, NoDup_app.
  rewrite mentioned_pairs_extracted by done.
  rewrite (NoDup_fmap (λ d, (n, d))), (IH Hnd). split.
  - intros (H1 & _ & H2) n' reqs' [[= -> ->]|Hin]%elem_of_cons; [done|].
    by apply (H2 n').
  - intros Hall. split; [apply (Hall n); by left|]. split.
    + intros [n' d] Hin Hin'.
      apply list_elem_of_fmap in Hin as (? & [= -> ->] & _).
      by apply mentioned_pairs_names in Hin'.
    + intros n' reqs' Hin. apply (Hall n'). by right.
Qed.


(** X16.  With [--raise-on-conflict], for packages with different names
    none of which is [version_specifiers]: when the documents extract, the
    command raises exactly when some package has two requirements with the
    same canonical dependency name (as [Sphinx (>=1.5.1)] and
    [Sphinx (>1.5)], which the extractor keeps both); specifiers that
    differ between packages never make it raise. *)
Theorem command_raises_on_repeated_dependency `{Runtime} docs rs :
  requirements_of_packages docs = inr rs →
  NoDup (package_names rs) →
  "version_specifiers" ∉ package_names rs →
  (packages_by_requirement docs true = inl (ValueError MultipleSpecifiers)
   ↔ ∃ n reqs, [(n, reqs)] ∈ rs ∧ ¬ NoDup (requirement_names reqs)) ∧
  (∀ e, packages_by_requirement docs true = inl e →
        e = ValueError MultipleSpecifiers).
Proof.
  intros Hrs Hnd Hvs. unfold packages_by_requirement. rewrite Hrs. simpl.
  pose proof (requirements_of_packages_processable _ _ Hrs) as Hwf.
  pose proof (requirements_of_packages_extracted _ _ Hrs) as Hex.
  unfold build_requirements_list. rewrite aggregate_loop_run by done.
  split; [|intros e; apply run_true_exn].
  rewrite run_true_raises, meets_recorded_key_NoDup
    by by apply no_reserved_name_extracted.
  rewrite NoDup_mentioned_pairs by done. split.
  - intros Hnot.
    destruct (decide (Forall (λ p : package_requirements,
                                NoDup (p.*2 ≫= requirement_names)) rs))
      as [Hall|Hexists].
    + destruct Hnot. intros n reqs Hin.
      apply (proj1 (Forall_forall _ _) Hall) in Hin. simpl in Hin.
      by rewrite app_nil_r in Hin.
    + apply not_Forall_Exists in Hexists; [|apply _].
      apply Exists_exists in Hexists as (p & Hin & Hp).
      apply (proj1 (Forall_forall _ _) Hex) in Hin as Hp'.
      destruct Hp' as (n & reqs & -> & _). exists n, reqs. split; [done|].
      intros Hnd'. apply Hp. simpl. by rewrite app_nil_r.
  - intros (n & reqs & Hin & Hnot) Hall. by apply Hnot, (Hall n).
Qed.

(** ** dependencies.py: streams and the working directory *)

Section Dist_info_properties.

Context {E : Type} (OSError : E) (isdir : string → bool).
Context (prepare : string → block E string) (module_dir : string).

Lemma generate_dist_info_eq repopath so se ps :
  isdir repopath = true →
  generate_dist_info OSError isdir prepare module_dir repopath so se ps
  = let '(ps_out, r) := prepare repopath (build_process repopath so se ps) in
  let restored :=
    {| sys_stdout := if so then sys_stdout ps_out else sys_stdout ps;
       sys_stderr := if se then sys_stderr ps else sys_stderr ps_out;
       cwd := cwd ps_out |} in
  match r with
  | inl e => (restored, inl e)
  | inr d =>
      if isdir module_dir then (set_cwd module_dir restored, inr d)
      else (restored, inl OSError)
  end.
Proof.
  intros Hdir. unfold generate_dist_info, chdir, build_process.
  rewrite Hdir. unfold suppress_stdout, suppress_stderr.
  destruct ps as [o e c].
  destruct so, se; simpl;
    destruct (prepare repopath _) as [[o' e' c'] [x'|d]]; simpl;
    try done; by destruct (isdir module_dir).
Qed.

Lemma generate_dist_info_no_dir repopath so se ps :
  isdir repopath = false →
  generate_dist_info OSError isdir prepare module_dir repopath so se ps
  = (ps, inl OSError).
Proof.
  intros Hdir. unfold generate_dist_info, chdir. by rewrite Hdir.
Qed.

(** X17.  [generate_dist_info] takes its flags in opposite senses: the
    build of the metadata runs, in directory [repopath], with [sys.stdout]
    on [os.devnull] when [suppress_output] is false, and untouched when it
    is true; with [sys.stderr] on [os.devnull] when [suppress_errors] is
    true.  What the build returns or raises is what [generate_dist_info]
    returns (if it can change to the directory of the module) or raises. *)
Theorem build_runs_redirected repopath (so se : bool) ps :
  isdir repopath = true →
  ∃ ps_out r,
    prepare repopath
      {| sys_stdout := if so then sys_stdout ps else Devnull;
         sys_stderr := if se then Devnull else sys_stderr ps;
         cwd := repopath |} = (ps_out, r) ∧
    (∀ e, r = inl e →
          (generate_dist_info OSError isdir prepare module_dir
             repopath so se ps).2 = inl e) ∧
    (∀ d, r = inr d → isdir module_dir = true →
          (generate_dist_info OSError isdir prepare module_dir
             repopath so se ps).2 = inr d).
Proof.
  intros Hdir. rewrite generate_dist_info_eq by done.
  unfold build_process.
  destruct (prepare repopath _) as [ps_out r]. exists ps_out, r.
  split; [done|]. split.
  - by intros e ->.
  - intros d -> Hmod. by rewrite Hmod.
Qed.

(** X18.  Whatever the build does to the streams, and whether
    [generate_dist_info] returns or raises, a stream that it redirected is
    bound afterwards to what it was bound to before the call. *)
Theorem streams_restored repopath (so se : bool) ps :
  sys_stdout (generate_dist_info OSError isdir prepare module_dir
                repopath false se ps).1 = sys_stdout ps ∧
  sys_stderr (generate_dist_info OSError isdir prepare module_dir
                repopath so true ps).1 = sys_stderr ps.
Proof.
  destruct (isdir repopath) eqn:Hdir.
  - rewrite !generate_dist_info_eq by done. split.
    + destruct (prepare repopath _) as [ps_out [e|d]]; simpl; [done|].
      by destruct (isdir module_dir).
    + destruct (prepare repopath _) as [ps_out [e|d]]; simpl; [done|].
      by destruct (isdir module_dir).
  - by rewrite !generate_dist_info_no_dir.
Qed.

(** X19.  [generate_dist_info] does not come back to the directory of its
    caller: when it returns, the working directory is the directory of the
    module; when the build raises, it is the directory the build left,
    [repopath] if the build does not change directory. *)
Theorem working_directory_after repopath so se ps :
  (∀ ps' d,
     generate_dist_info OSError isdir prepare module_dir repopath so se ps
     = (ps', inr d) →
     cwd ps' = module_dir) ∧
  (isdir repopath = true →
   ∀ ps_out e,
     prepare repopath (build_process repopath so se ps) = (ps_out, inl e) →
     (generate_dist_info OSError isdir prepare module_dir
        repopath so se ps).2 = inl e ∧
     cwd (generate_dist_info OSError isdir prepare module_dir
            repopath so se ps).1 = cwd ps_out).
Proof.
  split.
  - intros ps' d. destruct (isdir repopath) eqn:Hdir.
    + rewrite generate_dist_info_eq by done.
      destruct (prepare repopath _) as [ps_out [e|d']]; [done|].
      destruct (isdir module_dir); [|done]. by intros [= <- _].
    + by rewrite generate_dist_info_no_dir.
  - intros Hdir ps_out e Hprep.
    rewrite generate_dist_info_eq by done. by rewrite Hprep.
Qed.

End Dist_info_properties.

(** ** The further properties at concrete inputs *)

Lemma interrupted_run :
  build_requirements_list interrupted_packages false
  = ([ []; []; [("B", [ [("foo", ">=2.0")] ])] ], inl KeyError).
Proof. vm_compute. reflexivity. Defined.

Lemma aggregator_exceptions_witness :
  build_requirements_list interrupted_packages false
    = ([ []; []; [("B", [ [("foo", ">=2.0")] ])] ], inl KeyError) ∧
  ((KeyError = KeyError ∧ [] ∈ interrupted_packages) ∨
   (KeyError = ValueError Unpack ∧
    ∃ p n dl p', p ∈ interrupted_packages ∧
                 popitem p = Some ((n, dl), p') ∧ ¬ Forall single dl) ∨
   (KeyError = ValueError MultipleSpecifiers ∧ false = true)).
Proof.
  split; [exact interrupted_run|].
  exact (aggregator_exceptions _ _ _ _ interrupted_run).
Defined.

Lemma mutation_on_exception_witness :
  build_requirements_list interrupted_packages false
    = ([ []; []; [("B", [ [("foo", ">=2.0")] ])] ], inl KeyError) ∧
  ∃ pl1 p pl2,
    interrupted_packages = pl1 ++ p :: pl2 ∧
    Forall processable pl1 ∧
    [ []; []; [("B", [ [("foo", ">=2.0")] ])] ]
    = (after_popitem <$> (pl1 ++ [p])) ++ pl2.
Proof.
  split; [exact interrupted_run|].
  exact (mutation_on_exception _ _ _ _ interrupted_run).
Defined.

Lemma raise_flag_only_raises_witness :
  build_requirements_list scenario_packages true
    = ([ []; [] ], inr scenario_result) ∧
  build_requirements_list scenario_packages false
    = ([ []; [] ], inr scenario_result).
Proof.
  split; [exact (scenario_run true)|].
  exact (raise_flag_only_raises _ _ _ (scenario_run true)).
Defined.

Lemma second_call_raises_witness :
  scenario_packages ≠ [] ∧
  Forall (λ p : package_requirements, length p = 1) scenario_packages ∧
  build_requirements_list scenario_packages false
    = ([ []; [] ], inr scenario_result) ∧
  build_requirements_list [ []; [] ] true = ([ []; [] ], inl KeyError).
Proof.
  assert (scenario_packages ≠ []) as Hne by done.
  assert (Forall (λ p : package_requirements, length p = 1)
            scenario_packages) as Hlen by (by repeat constructor).
  split; [exact Hne|]. split; [exact Hlen|].
  split; [exact (scenario_run false)|].
  exact (second_call_raises _ false true _ _ Hne Hlen (scenario_run false)).
Defined.

Lemma scenario_lookup :
  scenario_result !! "foo"
  = Some {[ "A" := [">=1.0"]; "B" := [">=2.0"];
            "version_specifiers" := [">=1.0"; ">=2.0"] ]}.
Proof. vm_compute. reflexivity. Defined.

Lemma entries_have_version_specifiers_witness :
  build_requirements_list scenario_packages false
    = ([ []; [] ], inr scenario_result) ∧
  ∀ dn e, scenario_result !! dn = Some e →
    (∃ l, e !! "version_specifiers" = Some l ∧ l ≠ [] ∧
          conflict e = inr (bool_decide (1 < length l))) ∧
    (∀ k l, e !! k = Some l → l ≠ []).
Proof.
  split; [exact (scenario_run false)|].
  exact (entries_have_version_specifiers _ _ _ _ (scenario_run false)).
Defined.

Lemma conflict_iff_two_specifiers_witness :
  no_reserved_name (mentions scenario_packages) ∧
  build_requirements_list scenario_packages false
    = ([ []; [] ], inr scenario_result) ∧
  ∀ dn e, scenario_result !! dn = Some e →
    e !! "version_specifiers"
      = Some (distinct (all_specs dn (mentions scenario_packages))) ∧
    NoDup (distinct (all_specs dn (mentions scenario_packages))) ∧
    (conflict e = inr true ↔
     ∃ n1 n2 v1 v2, v1 ≠ v2 ∧ (n1, dn, v1) ∈ mentions scenario_packages ∧
                    (n2, dn, v2) ∈ mentions scenario_packages).
Proof.
  split; [exact scenario_no_reserved_name|].
  split; [exact (scenario_run false)|].
  exact (conflict_iff_two_specifiers _ _ _ _ scenario_no_reserved_name
           (scenario_run false)).
Defined.



Lemma two_groups_extracts :
  @build_package_requirements (runtime_of two_documents) "two_groups.json" ∅
  = inr two_groups_requirements.
Proof. vm_compute. reflexivity. Defined.

Lemma extractor_output_shape_witness :
  @build_package_requirements (runtime_of two_documents) "two_groups.json" ∅
    = inr two_groups_requirements ∧
  ∃ md n reqs,
    @json_loads (runtime_of two_documents) "two_groups.json" = Some md ∧
    md_name md = Some n ∧
    two_groups_requirements = [(n, reqs)] ∧
    Forall emitted reqs ∧
    length reqs = size (selected_strings ∅ md) ∧
    processable two_groups_requirements.
Proof.
  split; [exact two_groups_extracts|].
  exact (@extractor_output_shape (runtime_of two_documents) _ _ _
           two_groups_extracts).
Defined.

Lemma no_requirements_witness :
  "{...}" ≠ "" ∧
  @json_loads (example_runtime no_groups) "{...}" = Some no_groups ∧
  md_name no_groups = Some "pkg" ∧
  (∀ key, key ∈ group_keys → enabled ∅ key = true →
          default [] (md_groups no_groups !! key) = []) ∧
  @build_package_requirements (example_runtime no_groups) "{...}" ∅
    = inr [("pkg", [])].
Proof.
  assert ("{...}" ≠ "") as Hdoc by done.
  assert (∀ key, key ∈ group_keys → enabled ∅ key = true →
                 default [] (md_groups no_groups !! key) = []) as Hempty.
  { intros key _ _. simpl. by rewrite lookup_empty. }
  split; [exact Hdoc|]. split; [reflexivity|]. split; [reflexivity|].
  split; [exact Hempty|].
  exact (@no_requirements (example_runtime no_groups) "{...}" ∅ no_groups
           "pkg" Hdoc eq_refl eq_refl Hempty).
Defined.

Lemma disabled_group_ignored_witness :
  enabled {[ "test_requires" := false ]} "test_requires" = false ∧
  "two_groups.json" ≠ "" ∧ "unselectable.json" ≠ "" ∧
  @json_loads (runtime_of disabled_documents) "two_groups.json"
    = Some two_groups ∧
  @json_loads (runtime_of disabled_documents) "unselectable.json"
    = Some two_groups_unselectable ∧
  @build_package_requirements (runtime_of disabled_documents)
    "two_groups.json" {[ "test_requires" := false ]}
  = @build_package_requirements (runtime_of disabled_documents)
      "unselectable.json" {[ "test_requires" := false ]}.
Proof.
  assert ("two_groups.json" ≠ "") as Hdoc by done.
  assert ("unselectable.json" ≠ "") as Hdoc' by done.
  split; [reflexivity|]. split; [exact Hdoc|]. split; [exact Hdoc'|].
  split; [reflexivity|]. split; [reflexivity|].
  exact (@disabled_group_ignored (runtime_of disabled_documents)
           "two_groups.json" "unselectable.json"
           {[ "test_requires" := false ]} two_groups "test_requires"
           [docs_group; docs_group] eq_refl Hdoc Hdoc' eq_refl eq_refl).
Defined.

Lemma first_all_wins_witness :
  md_groups two_all !! "dev_requires"
    = Some ([docs_group] ++ all_group ::
              [ {| extra := Some "all";
                   requires := Some ["pytest (>=3.0)"] |} ]) ∧
  [docs_group] ++
    [ {| extra := Some "all"; requires := Some ["pytest (>=3.0)"] |} ] ≠ [] ∧
  Forall (λ g', extra g' ≠ Some "all") [docs_group] ∧
  extra all_group = Some "all" ∧
  _get_requirements "dev_requires" two_all = requires all_group ∧
  ∀ kwargs, enabled kwargs "dev_requires" = true →
            selection kwargs two_all "dev_requires"
            = list_to_set (default [] (requires all_group)).
Proof.
  assert (md_groups two_all !! "dev_requires"
          = Some ([docs_group] ++ all_group ::
                    [ {| extra := Some "all";
                         requires := Some ["pytest (>=3.0)"] |} ])) as Hkey
    by (vm_compute; reflexivity).
  assert ([docs_group] ++
            [ {| extra := Some "all"; requires := Some ["pytest (>=3.0)"] |} ]
          ≠ []) as Hne by done.
  assert (Forall (λ g', extra g' ≠ Some "all") [docs_group]) as Hall
    by (repeat constructor; done).
  split; [exact Hkey|]. split; [exact Hne|]. split; [exact Hall|].
  split; [reflexivity|].
  exact (first_all_wins "dev_requires" two_all [docs_group] all_group _
           Hkey Hne Hall eq_refl).
Defined.

Lemma two_groups_collected :
  @requirements_of_packages (runtime_of two_documents) ["two_groups.json"]
  = inr [two_groups_requirements].
Proof. vm_compute. reflexivity. Defined.

Lemma command_raises_on_repeated_dependency_witness :
  @requirements_of_packages (runtime_of two_documents) ["two_groups.json"]
    = inr [two_groups_requirements] ∧
  NoDup (package_names [two_groups_requirements]) ∧
  ("version_specifiers" ∉ package_names [two_groups_requirements]) ∧
  (@packages_by_requirement (runtime_of two_documents) ["two_groups.json"] true
     = inl (ValueError MultipleSpecifiers)
   ↔ ∃ n reqs, [(n, reqs)] ∈ [two_groups_requirements] ∧
               ¬ NoDup (requirement_names reqs)) ∧
  (∀ e, @packages_by_requirement (runtime_of two_documents)
          ["two_groups.json"] true = inl e →
        e = ValueError MultipleSpecifiers).
Proof.
  assert (NoDup (package_names [two_groups_requirements])) as Hnd.
  { apply NoDup_singleton. }
  assert ("version_specifiers" ∉ package_names [two_groups_requirements])
    as Hvs.
  { intros Hin. apply list_elem_of_singleton in Hin. discriminate. }
  split; [exact two_groups_collected|]. split; [exact Hnd|].
  split; [exact Hvs|].
  exact (@command_raises_on_repeated_dependency (runtime_of two_documents)
           _ _ two_groups_collected Hnd Hvs).
Defined.

Lemma build_runs_redirected_witness :
  example_isdir "/repo" = true ∧
  ∃ ps_out r,
    example_prepare "/repo"
      {| sys_stdout := Devnull;
         sys_stderr := Stream "stderr";
         cwd := "/repo" |} = (ps_out, r) ∧
    (∀ e, r = inl e →
          (generate_dist_info "OSError" example_isdir example_prepare
             "/module" "/repo" false false
             {| sys_stdout := Stream "stdout"; sys_stderr := Stream "stderr";
                cwd := "/home" |}).2 = inl e) ∧
    (∀ d, r = inr d → example_isdir "/module" = true →
          (generate_dist_info "OSError" example_isdir example_prepare
             "/module" "/repo" false false
             {| sys_stdout := Stream "stdout"; sys_stderr := Stream "stderr";
                cwd := "/home" |}).2 = inr d).
Proof.
  split; [reflexivity|].
  exact (build_runs_redirected "OSError" example_isdir example_prepare
           "/module" "/repo" false false
           {| sys_stdout := Stream "stdout"; sys_stderr := Stream "stderr";
              cwd := "/home" |} eq_refl).
Defined.

Lemma example_generate :
  generate_dist_info "OSError" example_isdir example_prepare "/module"
    "/repo" false false
    {| sys_stdout := Stream "stdout"; sys_stderr := Stream "stderr";
       cwd := "/home" |}
  = ({| sys_stdout := Stream "stdout"; sys_stderr := Stream "stderr";
        cwd := "/module" |}, inr "pkg.dist-info").
Proof. vm_compute. reflexivity. Defined.

Lemma working_directory_after_witness :
  generate_dist_info "OSError" example_isdir example_prepare "/module"
    "/repo" false false
    {| sys_stdout := Stream "stdout"; sys_stderr := Stream "stderr";
       cwd := "/home" |}
  = ({| sys_stdout := Stream "stdout"; sys_stderr := Stream "stderr";
        cwd := "/module" |}, inr "pkg.dist-info") ∧
  cwd {| sys_stdout := Stream "stdout"; sys_stderr := Stream "stderr";
         cwd := "/module" |} = "/module".
Proof.
  split; [exact example_generate|].
  exact (proj1 (working_directory_after "OSError" example_isdir
                  example_prepare "/module" "/repo" false false _)
           _ _ example_generate).
Defined.

(** ** The order of the packages *)

Lemma meets_recorded_key_Permutation ms ms' :
  ms ≡ₚ ms' → no_reserved_name ms →
  meets_recorded_key ms → meets_recorded_key ms'.
Proof.
  intros Hperm Hnames Hmeets.
  apply meets_recorded_key_NoDup;
    [by eapply no_reserved_name_Permutation|].
  apply meets_recorded_key_NoDup in Hmeets; [|done].
  intros Hnd. apply Hmeets. unfold mentioned_pairs in *. by rewrite Hperm.
Qed.

(** C6, amended.  For a list of packages and a permutation of it: when the
    aggregator returns on the list without [raise_on_confict], it returns
    on the permutation too; with [raise_on_confict] it does so provided no
    package is called [version_specifiers]; and whenever it returns on
    both, in whichever mode for each, the two results have entries for the
    same dependencies and, for each dependency, the same set of elements in
    ['version_specifiers'], and the same conflict flag provided no package
    is called [version_specifiers]. *)
Theorem version_specifiers_order_independent
    (pl pl' : list package_requirements) :
  pl ≡ₚ pl' →
  (∀ st R, build_requirements_list pl false = (st, inr R) →
           ∃ st' R', build_requirements_list pl' false = (st', inr R')) ∧
  (no_reserved_name (mentions pl) →
   ∀ st R, build_requirements_list pl true = (st, inr R) →
           ∃ st' R', build_requirements_list pl' true = (st', inr R')) ∧
  (∀ b b' st st' R R',
     build_requirements_list pl b = (st, inr R) →
     build_requirements_list pl' b' = (st', inr R') →
     dom R = dom R' ∧
     (∀ dn, version_specifier_set R dn = version_specifier_set R' dn) ∧
     (no_reserved_name (mentions pl) →
      ∀ dn e, R !! dn = Some e →
              ∃ e', R' !! dn = Some e' ∧ conflict e = conflict e')).
Proof.
  intros Hperm. split; [|split].
  - intros st R HR.
    pose proof (build_requirements_list_ok _ _ _ _ HR) as (Hwf & _).
    rewrite Hperm in Hwf.
    destruct (build_requirements_list_false pl' Hwf) as (R' & HR' & _).
    eauto.
  - intros Hnames st R HR.
    pose proof (build_requirements_list_ok _ _ _ _ HR) as (Hwf & _ & Hrun & _).
    rewrite Hperm in Hwf.
    assert (¬ meets_recorded_key (mentions pl)) as Hno.
    { apply run_true_ok. eauto. }
    assert (¬ meets_recorded_key (mentions pl')) as Hno'.
    { intros Hmeets. apply Hno.
      apply (meets_recorded_key_Permutation (mentions pl')); [| |done].
      - symmetry. by apply mentions_Permutation.
      - eapply no_reserved_name_Permutation; [|done].
        by apply mentions_Permutation. }
    apply run_true_ok in Hno' as [R' HR'].
    exists (after_popitem <$> pl'), R'. by apply aggregate_loop_inr.
  - intros b b' st st' R R' HR HR'. by eapply order_independent.
Qed.

Lemma version_specifiers_order_independent_witness :
  scenario_packages ≡ₚ reverse scenario_packages ∧
  (∀ st R, build_requirements_list scenario_packages false = (st, inr R) →
           ∃ st' R', build_requirements_list (reverse scenario_packages) false
                     = (st', inr R')) ∧
  (no_reserved_name (mentions scenario_packages) →
   ∀ st R, build_requirements_list scenario_packages true = (st, inr R) →
           ∃ st' R', build_requirements_list (reverse scenario_packages) true
                     = (st', inr R')) ∧
  (∀ b b' st st' R R',
     build_requirements_list scenario_packages b = (st, inr R) →
     build_requirements_list (reverse scenario_packages) b' = (st', inr R') →
     dom R = dom R' ∧
     (∀ dn, version_specifier_set R dn = version_specifier_set R' dn) ∧
     (no_reserved_name (mentions scenario_packages) →
      ∀ dn e, R !! dn = Some e →
              ∃ e', R' !! dn = Some e' ∧ conflict e = conflict e')).
Proof.
  assert (scenario_packages ≡ₚ reverse scenario_packages) as Hperm
    by apply perm_swap.
  split; [exact Hperm|].
  exact (version_specifiers_order_independent _ _ Hperm).
Defined.

(** The scenario in the other order, in both modes: the aggregator returns
    there, with the specifiers of [foo] in the other order, so the parts of
    the theorem are not vacuous. *)
Example scenario_reversed b :
  build_requirements_list (reverse scenario_packages) b
  = ([ []; [] ],
     inr {[ "foo" := {[ "A" := [">=1.0"]; "B" := [">=2.0"];
                        "version_specifiers" := [">=2.0"; ">=1.0"] ]} ]}).
Proof. destruct b; vm_compute; reflexivity. Qed.

Lemma extractor_exceptions_witness :
  "{...}" ≠ "" ∧
  @json_loads (example_runtime no_specifier) "{...}" = Some no_specifier ∧
  (@build_package_requirements (example_runtime no_specifier) "{...}" ∅
     = inl (ValueError Unpack) ↔
   (¬ selectable ∅ no_specifier group_keys ∧ ValueError Unpack = TypeError) ∨
   (selectable ∅ no_specifier group_keys ∧ md_name no_specifier = None ∧
    ValueError Unpack = KeyError) ∨
   (selectable ∅ no_specifier group_keys ∧ is_Some (md_name no_specifier) ∧
    (∃ s, s ∈ selected_strings ∅ no_specifier ∧ length (split s) ≠ 2) ∧
    ValueError Unpack = ValueError Unpack)).
Proof.
  assert ("{...}" ≠ "") as Hdoc by done.
  split; [exact Hdoc|]. split; [reflexivity|].
  exact (@extractor_exceptions (example_runtime no_specifier) "{...}" ∅
           no_specifier (ValueError Unpack) Hdoc eq_refl).
Defined.
